(** * Tofino browser shell: tab reducer, profile diffing, bookmark actions

    A shallow embedding of
    - [src/ui/browser/reducers/main-reducers.js] (the per-window tab reducer),
    - [sendToAllWindows] / [sendDiffsToWindows] of [src/app/main/browser.js],
    - the bookmark / unbookmark actions exercised by
      [src/test/unit/ui/browser/actions/test-unbookmark.js],
    together with the properties the specification states about them.

    The reducer is written against Immutable.js 3.x persistent collections
    ([Immutable.List], [Immutable.Record], [Immutable.Map]); the part of
    that library the reducer calls is modelled in [Module Immutable]. *)

From Stdlib Require Import Ascii.
From stdpp Require Import base numbers list strings gmap.

Set Warnings "-register-all,-clear-no-such-hyp".
Local Open Scope string_scope.
Local Open Scope list_scope.
Local Open Scope Z_scope.

(** ** JavaScript values *)

(** The values that can sit in a page slot, in a page field or in an action
    payload.  [VRecord] is an instance of an [Immutable.Record] type: one
    entry per declared key, in declaration order.  [VMap] is an
    [Immutable.Map] with string keys (what [setIn] creates along a missing
    path).  A hole of an [Immutable.List] reads as [VUndefined]. *)
Inductive JsVal : Type :=
| VUndefined
| VNull
| VBool (b : bool)
| VNum (n : Z)
| VStr (s : string)
| VRecord (fields : list (string * JsVal))
| VMap (entries : list (string * JsVal)).

(** A computation that may raise a JavaScript exception. *)
Inductive Result (A : Type) : Type :=
| Ok (a : A)
| Throw (message : string).
Arguments Ok {A} a.
Arguments Throw {A} message.

#[global] Instance Result_ret : MRet Result := λ A a, Ok a.
#[global] Instance Result_bind : MBind Result := λ A B k c,
  match c with
  | Ok a => k a
  | Throw e => Throw e
  end.

(** ** The slice of Immutable.js 3.x used by the reducer *)
Module Immutable.

(** [wrapIndex]: a negative index counts back from the end. *)
Definition wrapIndex (size : nat) (index : Z) : Z :=
  if decide (index < 0) then Z.of_nat size + index else index.

(** [List.prototype.has]. *)
Definition List_has {A} (l : list A) (index : Z) : bool :=
  let i := wrapIndex (length l) index in
  bool_decide (0 ≤ i < Z.of_nat (length l)).

(** [List.prototype.get(index, NOT_SET)]: [None] stands for NOT_SET. *)
Definition List_get {A} (l : list A) (index : Z) : option A :=
  let i := wrapIndex (length l) index in
  if decide (0 ≤ i) then l !! Z.to_nat i else None.

(** [List.prototype.delete]: the list itself when [has] fails. *)
Definition List_delete {A} (l : list A) (index : Z) : list A :=
  if List_has l index
  then delete (Z.to_nat (wrapIndex (length l) index)) l
  else l.

(** [List.prototype.push]. *)
Definition List_push {A} (l : list A) (x : A) : list A := l ++ [x].

(** [List.prototype.indexOf]: position of the first equal entry, or -1. *)
Fixpoint List_indexOf (l : list Z) (v : Z) : Z :=
  match l with
  | [] => -1
  | x :: rest =>
      if decide (x = v) then 0
      else let k := List_indexOf rest v in
           if decide (k = -1) then -1 else 1 + k
  end.

(** [List.prototype.set]: replaces in range; past the end the list grows
    up to the index, before the start it grows at the front; the slots in
    between are holes. *)
Definition List_set (l : list JsVal) (index : Z) (v : JsVal) : list JsVal :=
  let i := wrapIndex (length l) index in
  if decide (i < 0) then
    v :: replicate (Z.to_nat (- i - 1)) VUndefined ++ l
  else if decide (i < Z.of_nat (length l)) then
    <[Z.to_nat i := v]> l
  else
    l ++ replicate (Z.to_nat i - length l) VUndefined ++ [v].

(** Keyed entries: first match wins on lookup. *)
Fixpoint entries_get (es : list (string * JsVal)) (k : string) : option JsVal :=
  match es with
  | [] => None
  | (k', v) :: rest => if decide (k' = k) then Some v else entries_get rest k
  end.

Definition entries_has (es : list (string * JsVal)) (k : string) : bool :=
  bool_decide (k ∈ es.*1).

Definition entries_replace (es : list (string * JsVal)) (k : string) (v : JsVal)
  : list (string * JsVal) :=
  (λ e : string * JsVal, if decide (e.1 = k) then (k, v) else e) <$> es.

(** Reading a property of a Record or Map: [undefined] when absent. *)
Definition entries_read (es : list (string * JsVal)) (k : string) : JsVal :=
  default VUndefined (entries_get es k).

(** [Record.prototype.set]: an undeclared key is an error. *)
Definition Record_set (r : list (string * JsVal)) (k : string) (v : JsVal)
  : Result (list (string * JsVal)) :=
  if entries_has r k then Ok (entries_replace r k v)
  else Throw "Cannot set unknown key".

(** [Map.prototype.set]: any key is accepted. *)
Definition Map_set (m : list (string * JsVal)) (k : string) (v : JsVal)
  : list (string * JsVal) :=
  if entries_has m k then entries_replace m k v else m ++ [(k, v)].

(** The constructor of a Record type with the given declared keys and
    defaults, applied to a plain object. *)
Definition Record_new (defaults values : list (string * JsVal))
  : list (string * JsVal) :=
  (λ d : string * JsVal, (d.1, default d.2 (entries_get values d.1))) <$> defaults.

End Immutable.
Import Immutable.

(** ** The model ([../model], absent from this source tree) *)

(** The declared keys of the [Page] record type, with their defaults, taken
    as a parameter.  The reducer itself names [location] (constructor) and
    [userTyped] ([setLocation]); the specification adds [sessionId] and
    further render metadata. *)
Class PageModel : Type := {
  location_default : JsVal;
  userTyped_default : JsVal;
  sessionId_default : JsVal;
  Page_metadata : list (string * JsVal);
}.

Section Model.
Context {PM : PageModel}.

Definition Page_defaults : list (string * JsVal) :=
  ("location", location_default) :: ("userTyped", userTyped_default)
    :: ("sessionId", sessionId_default) :: Page_metadata.

Definition Page_keys : list string := Page_defaults.*1.

(** [new Page(values)]. *)
Definition Page (values : list (string * JsVal)) : JsVal :=
  VRecord (Record_new Page_defaults values).
End Model.

(** [State]: the record of [pages], [pageOrder] and [currentPageIndex]. *)
Record State : Type := mkState {
  pages : list JsVal;
  pageOrder : list Z;
  currentPageIndex : Z;
}.

(** ** Actions *)

(** Modelled from the spec: the constants of [../constants/action-types],
    which is absent from this source tree; the action vocabulary of the
    specification, each constant the string of its own name. *)
Module types.
Definition CREATE_TAB := "CREATE_TAB".
Definition DUPLICATE_TAB := "DUPLICATE_TAB".
Definition ATTACH_TAB := "ATTACH_TAB".
Definition CLOSE_TAB := "CLOSE_TAB".
Definition SET_LOCATION := "SET_LOCATION".
Definition SET_PAGE_DETAILS := "SET_PAGE_DETAILS".
Definition SET_CURRENT_TAB := "SET_CURRENT_TAB".
Definition SET_PAGE_ORDER := "SET_PAGE_ORDER".

Definition all : list string :=
  [CREATE_TAB; DUPLICATE_TAB; ATTACH_TAB; CLOSE_TAB;
   SET_LOCATION; SET_PAGE_DETAILS; SET_CURRENT_TAB; SET_PAGE_ORDER].
End types.

(** An action object: its [type] and the payload properties the reducer
    reads.  Indices are integers of any sign and size; [details] and [page]
    are the own entries of a plain object. *)
Module action.
Record t : Type := mk {
  type : string;
  location : JsVal;
  pageIndex : Z;
  page : list (string * JsVal);
  userTyped : JsVal;
  details : list (string * JsVal);
  pageOrder : list Z;
}.

Definition blank (ty : string) : t :=
  {| type := ty; location := VUndefined; pageIndex := 0; page := [];
     userTyped := VUndefined; details := []; pageOrder := [] |}.
End action.

(** Action creators. *)
Definition CreateTab (location : JsVal) : action.t :=
  {| action.type := types.CREATE_TAB; action.location := location;
     action.pageIndex := 0; action.page := []; action.userTyped := VUndefined;
     action.details := []; action.pageOrder := [] |}.
Definition DuplicateTab (pageIndex : Z) : action.t :=
  {| action.type := types.DUPLICATE_TAB; action.location := VUndefined;
     action.pageIndex := pageIndex; action.page := [];
     action.userTyped := VUndefined; action.details := [];
     action.pageOrder := [] |}.
Definition AttachTab (page : list (string * JsVal)) : action.t :=
  {| action.type := types.ATTACH_TAB; action.location := VUndefined;
     action.pageIndex := 0; action.page := page; action.userTyped := VUndefined;
     action.details := []; action.pageOrder := [] |}.
Definition CloseTab (pageIndex : Z) : action.t :=
  {| action.type := types.CLOSE_TAB; action.location := VUndefined;
     action.pageIndex := pageIndex; action.page := [];
     action.userTyped := VUndefined; action.details := [];
     action.pageOrder := [] |}.
Definition SetLocation (userTyped : JsVal) : action.t :=
  {| action.type := types.SET_LOCATION; action.location := VUndefined;
     action.pageIndex := 0; action.page := []; action.userTyped := userTyped;
     action.details := []; action.pageOrder := [] |}.
Definition SetPageDetails (pageIndex : Z) (details : list (string * JsVal))
  : action.t :=
  {| action.type := types.SET_PAGE_DETAILS; action.location := VUndefined;
     action.pageIndex := pageIndex; action.page := [];
     action.userTyped := VUndefined; action.details := details;
     action.pageOrder := [] |}.
Definition SetCurrentTab (pageIndex : Z) : action.t :=
  {| action.type := types.SET_CURRENT_TAB; action.location := VUndefined;
     action.pageIndex := pageIndex; action.page := [];
     action.userTyped := VUndefined; action.details := [];
     action.pageOrder := [] |}.
Definition SetPageOrder (pageOrder : list Z) : action.t :=
  {| action.type := types.SET_PAGE_ORDER; action.location := VUndefined;
     action.pageIndex := 0; action.page := []; action.userTyped := VUndefined;
     action.details := []; action.pageOrder := pageOrder |}.

(** ** main-reducers.js *)
Section MainReducers.
Context {PM : PageModel}.

Definition HOME_PAGE : string := "https://www.mozilla.org/".

Definition initialState : State :=
  {| pages := [Page [("location", VStr HOME_PAGE)]];
     pageOrder := [0];
     currentPageIndex := 0 |}.

(** [state.pages.size]. *)
Definition size (state : State) : Z := Z.of_nat (length (pages state)).

(** The default parameter [location = HOME_PAGE] applies to [undefined]. *)
Definition createTab (state : State) (location : JsVal) : State :=
  let location :=
    match location with VUndefined => VStr HOME_PAGE | _ => location end in
  let page := Page [("location", location)] in
  {| pages := List_push (pages state) page;
     currentPageIndex := size state;
     pageOrder := List_push (pageOrder state) (size state) |}.

(** [state.pages.get(pageIndex)] is [undefined] when nothing is there. *)
Definition duplicateTab (state : State) (pageIndex : Z) : State :=
  let location := default VUndefined (List_get (pages state) pageIndex) in
  let page := Page [("location", location)] in
  {| pages := List_push (pages state) page;
     currentPageIndex := size state;
     pageOrder := List_push (pageOrder state) (size state) |}.

Definition attachTab (state : State) (page : list (string * JsVal)) : State :=
  let newPage := Page page in
  {| pages := [newPage]; pageOrder := [0]; currentPageIndex := 0 |}.

Definition closeTab (state : State) (pageIndex : Z) : State :=
  if decide (size state = 1) then initialState
  else
    let currentPageIndex0 := currentPageIndex state in
    let pages' := List_delete (pages state) pageIndex in
    let orderIndex := List_indexOf (pageOrder state) pageIndex in
    let pageOrder1 := List_delete (pageOrder state) orderIndex in
    let pageOrder' :=
      (λ i, if decide (i < pageIndex) then i else i - 1) <$> pageOrder1 in
    let currentPageIndex' :=
      if decide (currentPageIndex0 = pageIndex) then
        (if decide (orderIndex > 0) then orderIndex - 1 else orderIndex)
      else if decide (currentPageIndex0 > pageIndex) then currentPageIndex0 - 1
      else currentPageIndex0 in
    {| pages := pages'; pageOrder := pageOrder';
       currentPageIndex := currentPageIndex' |}.

(** [state.setIn(['pages', index, key], value)].  A missing page slot
    becomes a fresh Map; a Record or Map in the slot is updated; anything
    else in the slot (a hole, a primitive) fails the library's
    'invalid keyPath' check. *)
Definition setIn_pages (state : State) (index : Z) (key : string) (value : JsVal)
  : Result State :=
  let put page' :=
    {| pages := List_set (pages state) index page';
       pageOrder := pageOrder state;
       currentPageIndex := currentPageIndex state |} in
  match List_get (pages state) index with
  | None => Ok (put (VMap [(key, value)]))
  | Some (VRecord r) => r' ← Record_set r key value ; Ok (put (VRecord r'))
  | Some (VMap m) => Ok (put (VMap (Map_set m key value)))
  | Some _ => Throw "invalid keyPath"
  end.

Definition setLocation (state : State) (userTyped : JsVal) : Result State :=
  setIn_pages state (currentPageIndex state) "userTyped" userTyped.

(** The loop of [setPageDetails] over [objectEntries(details)]. *)
Fixpoint setPageDetails_loop (newState : State) (pageIndex : Z)
    (entries : list (string * JsVal)) : Result State :=
  match entries with
  | [] => Ok newState
  | (key, value) :: rest =>
      newState' ← setIn_pages newState pageIndex key value ;
      setPageDetails_loop newState' pageIndex rest
  end.

Definition setPageDetails (state : State) (pageIndex : Z)
    (details : list (string * JsVal)) : Result State :=
  let pageIndex :=
    if decide (pageIndex = -1) then currentPageIndex state else pageIndex in
  setPageDetails_loop state pageIndex details.

Definition setCurrentTab (state : State) (pageIndex : Z) : State :=
  {| pages := pages state; pageOrder := pageOrder state;
     currentPageIndex := pageIndex |}.

Definition setPageOrder (state : State) (pageOrder : list Z) : State :=
  {| pages := pages state; pageOrder := pageOrder;
     currentPageIndex := currentPageIndex state |}.

(** The exported reducer: a [switch] on [action.type]. *)
Definition basic (state : State) (a : action.t) : Result State :=
  let ty := action.type a in
  if decide (ty = types.CREATE_TAB) then
    Ok (createTab state (action.location a))
  else if decide (ty = types.DUPLICATE_TAB) then
    Ok (duplicateTab state (action.pageIndex a))
  else if decide (ty = types.ATTACH_TAB) then
    Ok (attachTab state (action.page a))
  else if decide (ty = types.CLOSE_TAB) then
    Ok (closeTab state (action.pageIndex a))
  else if decide (ty = types.SET_LOCATION) then
    setLocation state (action.userTyped a)
  else if decide (ty = types.SET_PAGE_DETAILS) then
    setPageDetails state (action.pageIndex a) (action.details a)
  else if decide (ty = types.SET_CURRENT_TAB) then
    Ok (setCurrentTab state (action.pageIndex a))
  else if decide (ty = types.SET_PAGE_ORDER) then
    Ok (setPageOrder state (action.pageOrder a))
  else Ok state.

(** Dispatching a list of actions in order, stopping at the first error. *)
Fixpoint dispatchAll (state : State) (actions : list action.t) : Result State :=
  match actions with
  | [] => Ok state
  | a :: rest => state' ← basic state a ; dispatchAll state' rest
  end.
End MainReducers.

(** ** app/main/browser.js: replication of profile state to the windows *)

(** Modelled from the spec: the payload builders of [../shared/profile-diffs],
    which is absent from this source tree; each wraps the plain projection it is
    given into the payload of a diff message. *)
Module profileDiffs.
Inductive t : Type :=
| bookmarks (payload : list string)
| completions (payload : list (string * string)).
End profileDiffs.

Module Browser.

(** The state of the main-process store: the set of open window ids, the
    recent bookmarks, the bookmarked URLs and the completion data per
    location. *)
Record ProfileState : Type := mkProfileState {
  browserWindows : gset Z;
  recentBookmarks : list string;
  bookmarks : gset string;
  locations : gmap string string;
}.

(** What one run does to the outside world, in program order.  A load
    promise continuation is recorded when it is scheduled; a call of
    [sendToAllWindows] is one event, with the windows it was sent to.
    The order in which a Set or Map is walked ([forEach], [toJS]) is its
    insertion order in the program; here [elements] and [map_to_list] walk
    it in one fixed order, so only the content of a listing is meaningful,
    not the order of its entries. *)
Inductive Effect : Type :=
| ShowWhenLoaded (id : Z)
| CloseWhenLoaded (id : Z)
| BrowserMenu_build (recent : list string)
| SendToAllWindows (event : string) (args : profileDiffs.t) (receivers : list Z).

(** [Immutable.is] on two collections of the same kind is value equality. *)
Definition Immutable_is {A} `{EqDecision A} (a b : A) : bool := bool_decide (a = b).

Section Engine.
(** [BrowserWindow.fromId(id)] yields a window or nothing. *)
Variable fromId : Z → bool.

(** [sendToAllWindows]: [webContents.send] on every window of the store
    that [fromId] still finds.  [browserWindows] is always a set here, so
    the early return on a missing one does not arise. *)
Definition sendToAllWindows (store : ProfileState) (event : string)
    (args : profileDiffs.t) : list Effect :=
  let windows := browserWindows store in
  [SendToAllWindows event args (filter (λ id, fromId id = true) (elements windows))].

(** One run of the subscriber.  [currentState] is the module variable
    (nothing before the first run), [store] is [store.getState()]; the
    result is the new value of the variable and the effects. *)
Definition sendDiffsToWindows (currentState : option ProfileState)
    (store : ProfileState) : option ProfileState * list Effect :=
  let previousState := currentState in
  let currentState := store in
  let windowEffects :=
    match previousState with
    | Some previous =>
        if negb (Immutable_is (browserWindows currentState) (browserWindows previous)) then
          (fmap ShowWhenLoaded
             (filter (λ id, (id ∉ browserWindows previous) ∧ fromId id = true)
                     (elements (browserWindows currentState)))
           ++ fmap CloseWhenLoaded
             (filter (λ id, (id ∉ browserWindows currentState) ∧ fromId id = true)
                     (elements (browserWindows previous))))%list
        else []
    | None => []
    end in
  let recentBookmarksChanged :=
    match previousState with
    | None => true
    | Some previous =>
        negb (Immutable_is (recentBookmarks currentState) (recentBookmarks previous))
    end in
  let menuEffects :=
    if recentBookmarksChanged
    then [BrowserMenu_build (recentBookmarks currentState)] else [] in
  let bookmarksChanged :=
    match previousState with
    | None => true
    | Some previous => negb (Immutable_is (bookmarks currentState) (bookmarks previous))
    end in
  let bookmarkEffects :=
    if bookmarksChanged
    then sendToAllWindows store "profile-diff"
           (profileDiffs.bookmarks (elements (bookmarks currentState)))
    else [] in
  let locationsChanged :=
    match previousState with
    | None => true
    | Some previous => negb (Immutable_is (locations currentState) (locations previous))
    end in
  let locationEffects :=
    if locationsChanged
    then sendToAllWindows store "profile-diff"
           (profileDiffs.completions (map_to_list (locations currentState)))
    else [] in
  (Some currentState,
   (windowEffects ++ menuEffects ++ bookmarkEffects ++ locationEffects)%list).
End Engine.

End Browser.

(** ** The bookmark and unbookmark actions *)

(** [encodeURIComponent] on a string of UTF-8 bytes: unreserved characters
    stay, every other byte becomes a percent escape. *)
Module URI.
Definition unreserved (c : ascii) : bool :=
  let n := N_of_ascii c in
  ((65 <=? n) && (n <=? 90) || (97 <=? n) && (n <=? 122)
   || (48 <=? n) && (n <=? 57)
   || bool_decide (c ∈ String.list_ascii_of_string "-_.!~*'()"))%N.

Definition hexDigit (n : N) : ascii :=
  default "0"%char (String.list_ascii_of_string "0123456789ABCDEF" !! N.to_nat n).

Definition escape (c : ascii) : string :=
  let n := N_of_ascii c in
  String "%" (String (hexDigit (n / 16)%N) (String (hexDigit (n mod 16)%N) "")).

Fixpoint encodeURIComponent (s : string) : string :=
  match s with
  | EmptyString => ""
  | String c rest =>
      String.append (if unreserved c then String c "" else escape c)
                    (encodeURIComponent rest)
  end.
End URI.

Module MainActions.

(** One call of [fetch]: the target, the HTTP method and the [session]
    entry of the JSON body. *)
Record Fetch : Type := mkFetch {
  url : string;
  method : string;
  json_session : JsVal;
}.

(** What the actions read and write: the session id of each page (by page
    id) and the bookmark set of the profile. *)
Record Store : Type := mkStore {
  sessionIds : list (string * JsVal);
  bookmarks : gset string;
}.

Section Actions.
(** [endpoints.UA_SERVICE_HTTP]. *)
Variable UA_SERVICE_HTTP : string.

Definition stars (location : string) : string :=
  String.append UA_SERVICE_HTTP
    (String.append "/stars/" (URI.encodeURIComponent location)).

(** [undefined] when there is no such page. *)
Definition sessionOf (store : Store) (pageId : string) : JsVal :=
  default VUndefined (entries_get (sessionIds store) pageId).

(** Modelled from the spec: [bookmark] of ui/browser/actions/main-actions
    and the profile reducer behind it are absent from this source tree.  The
    URL joins the bookmark set at once, and a POST to
    [{base}/stars/{url-encoded location}] with body [{ session }] is
    issued. *)
Definition bookmark (store : Store) (pageId url title : string)
  : Store * list Fetch :=
  ({| sessionIds := sessionIds store; bookmarks := {[url]} ∪ bookmarks store |},
   [{| url := stars url; method := "POST";
       json_session := sessionOf store pageId |}]).

(** Modelled from the spec: [unbookmark] of ui/browser/actions/main-actions
    and the profile reducer behind it are absent from this source tree.  The
    URL leaves the bookmark set at once, and a DELETE to
    [{base}/stars/{url-encoded location}] with body [{ session }] is
    issued. *)
Definition unbookmark (store : Store) (pageId url : string)
  : Store * list Fetch :=
  ({| sessionIds := sessionIds store; bookmarks := bookmarks store ∖ {[url]} |},
   [{| url := stars url; method := "DELETE";
       json_session := sessionOf store pageId |}]).
End Actions.

(** The DELETE calls among the calls an action issued. *)
Definition deletes (fetches : list Fetch) : list Fetch :=
  filter (λ f, method f = "DELETE") fetches.

End MainActions.

(** ** Vocabulary of the specification *)

(** A concrete [Page] record type for running examples: the three fields the
    specification names, unset by default, and a title. *)
Definition examplePageModel : PageModel :=
  {| location_default := VUndefined;
     userTyped_default := VNull;
     sessionId_default := VNull;
     Page_metadata := [("title", VStr "New Tab")] |}.

Section Vocabulary.
Context {PM : PageModel}.

(** The indices of the live pages: 0 .. size-1. *)
Definition liveIndices (state : State) : list Z := seqZ 0 (size state).

(** An index that addresses a live page. *)
Definition inRange (state : State) (pageIndex : Z) : Prop :=
  0 ≤ pageIndex < size state.

(** The data-model invariant of a TabState. *)
Definition TabInvariant (state : State) : Prop :=
  pageOrder state ≡ₚ liveIndices state
  ∧ inRange state (currentPageIndex state).

(** A run of CREATE_TAB and CLOSE_TAB actions from [state] in which every
    CLOSE_TAB carries an index that is in range when it is dispatched. *)
Inductive CreateCloseRun : State → list action.t → Prop :=
| run_done state : CreateCloseRun state []
| run_create state a rest :
    action.type a = types.CREATE_TAB →
    CreateCloseRun (createTab state (action.location a)) rest →
    CreateCloseRun state (a :: rest)
| run_close state a rest :
    action.type a = types.CLOSE_TAB →
    inRange state (action.pageIndex a) →
    CreateCloseRun (closeTab state (action.pageIndex a)) rest →
    CreateCloseRun state (a :: rest).

(** [page.location]. *)
Definition locationOf (page : JsVal) : JsVal :=
  match page with
  | VRecord es | VMap es => entries_read es "location"
  | _ => VUndefined
  end.

(** A slot that holds an instance of the [Page] record type. *)
Definition isPage (v : JsVal) : Prop :=
  match v with
  | VRecord r => r.*1 = Page_keys
  | _ => False
  end.

(** What [setIn] can work on in a page slot: nothing yet, a [Page], or a
    Map. *)
Definition updatable (slot : option JsVal) : Prop :=
  match slot with
  | None => True
  | Some (VRecord r) => r.*1 = Page_keys
  | Some (VMap _) => True
  | Some _ => False
  end.

(** Setting the entries of [details] on one record, in order. *)
Fixpoint applyDetails (r : list (string * JsVal))
    (details : list (string * JsVal)) : Result (list (string * JsVal)) :=
  match details with
  | [] => Ok r
  | (key, value) :: rest => r' ← Record_set r key value; applyDetails r' rest
  end.

(** Following the specification's words for closing the selected page:
    the page immediately before the closed one in display order, or the
    page at display position 0 when there is none, named by its index
    after the removal. *)
Definition displayPredecessor (state : State) (pageIndex : Z) : option Z :=
  let orderIndex := List_indexOf (pageOrder state) pageIndex in
  let remaining :=
    (λ i, if decide (i < pageIndex) then i else i - 1)
      <$> List_delete (pageOrder state) orderIndex in
  remaining !! Z.to_nat (if decide (orderIndex > 0) then orderIndex - 1 else 0).
End Vocabulary.

(** ** Well-formed dispatches *)
Section WellFormed.
Context {PM : PageModel}.

(** A state as the data model describes it: the order is a permutation of
    the live indices, the current index is live, every slot is a [Page]. *)
Definition GoodState (state : State) : Prop :=
  TabInvariant state ∧ Forall isPage (pages state).

(** What an action must carry for the reducer to keep such a state: indices
    in range where they select a page to close, to patch or to show, declared
    keys in [details], a permutation as the new order.  CREATE_TAB,
    DUPLICATE_TAB, ATTACH_TAB, SET_LOCATION and unknown types need nothing. *)
Definition wellFormedAction (state : State) (a : action.t) : Prop :=
  let ty := action.type a in
  if decide (ty = types.CLOSE_TAB) then inRange state (action.pageIndex a)
  else if decide (ty = types.SET_PAGE_DETAILS) then
    (action.pageIndex a = -1 ∨ inRange state (action.pageIndex a))
    ∧ Forall (λ kv, kv.1 ∈ Page_keys) (action.details a)
  else if decide (ty = types.SET_CURRENT_TAB) then
    inRange state (action.pageIndex a)
  else if decide (ty = types.SET_PAGE_ORDER) then
    action.pageOrder a ≡ₚ liveIndices state
  else True.

(** A run in which every action is well formed for the state it meets. *)
Inductive WellFormedRun : State → list action.t → Prop :=
| wf_done state : WellFormedRun state []
| wf_step state a rest :
    wellFormedAction state a →
    (∀ state', basic state a = Ok state' → WellFormedRun state' rest) →
    WellFormedRun state (a :: rest).

(** The value a field holds after the entries of [details] were set in
    order over [before]: the last entry for the key, if there is one. *)
Definition lastWrite (details : list (string * JsVal)) (before : option JsVal)
    (k : string) : option JsVal :=
  match entries_get (reverse details) k with
  | Some v => Some v
  | None => before
  end.
End WellFormed.

(** A state for running examples: the home page and a second page, the
    second one selected. *)
Definition twoPages : State :=
  createTab (PM := examplePageModel) (initialState (PM := examplePageModel))
    (VStr "http://a.com").

(** ** app/main/browser.js: [fileUrl] *)
Module BrowserUrl.

(** [encodeURI] on a well-formed string, given by its UTF-8 bytes: as
    [encodeURIComponent], but the reserved characters and the number sign
    stay as well.  A string with an unpaired surrogate, on which the
    built-in raises URIError, has no UTF-8 form and is outside this
    definition; [wellFormedUTF8] below says which byte strings stand for a
    string. *)
Definition unescapedInURI (c : ascii) : bool :=
  URI.unreserved c
  || bool_decide (c ∈ String.list_ascii_of_string ";/?:@&=+$,#").

Fixpoint encodeURI (s : string) : string :=
  match s with
  | EmptyString => ""
  | String c rest =>
      String.append (if unescapedInURI c then String c "" else URI.escape c)
                    (encodeURI rest)
  end.

Definition inByteRange (lo hi : N) (c : ascii) : bool :=
  let n := N_of_ascii c in ((lo <=? n) && (n <=? hi))%N.

(** The byte strings that are the UTF-8 form of a string without unpaired
    surrogates (the well-formed byte sequences of RFC 3629: no overlong
    form, no encoded surrogate, nothing above U+10FFFF). *)
Fixpoint wellFormedUTF8 (s : string) : bool :=
  match s with
  | EmptyString => true
  | String b0 rest =>
      if inByteRange 0 127 b0 then wellFormedUTF8 rest
      else
        match rest with
        | EmptyString => false
        | String b1 rest1 =>
            if inByteRange 194 223 b0 then
              inByteRange 128 191 b1 && wellFormedUTF8 rest1
            else
              match rest1 with
              | EmptyString => false
              | String b2 rest2 =>
                  if inByteRange 224 239 b0 then
                    (if inByteRange 224 224 b0 then inByteRange 160 191 b1
                     else if inByteRange 237 237 b0 then inByteRange 128 159 b1
                     else inByteRange 128 191 b1)
                    && inByteRange 128 191 b2 && wellFormedUTF8 rest2
                  else
                    match rest2 with
                    | EmptyString => false
                    | String b3 rest3 =>
                        inByteRange 240 244 b0
                        && (if inByteRange 240 240 b0 then inByteRange 144 191 b1
                            else if inByteRange 244 244 b0
                                 then inByteRange 128 143 b1
                                 else inByteRange 128 191 b1)
                        && inByteRange 128 191 b2 && inByteRange 128 191 b3
                        && wellFormedUTF8 rest3
                    end
              end
        end
  end.

(** [str.replace(/\\/g, '/')]: every backslash becomes a slash. *)
Fixpoint replaceBackslashes (s : string) : string :=
  match s with
  | EmptyString => ""
  | String c rest =>
      String (if decide (c = "\"%char) then "/"%char else c)
             (replaceBackslashes rest)
  end.

Section FileUrl.
(** [path.resolve] of Node: the absolute path of its argument. *)
Variable resolve : string → string.

Definition fileUrl (str : string) : string :=
  let pathName := replaceBackslashes (resolve str) in
  let pathName :=
    match pathName with
    | String "/" _ => pathName
    | _ => String "/" pathName
    end in
  encodeURI (String.append "file://" pathName).
End FileUrl.

End BrowserUrl.

(** * Properties *)

(** ** Facts about the modelled collection operations *)
Section ImmutableFacts.

Lemma wrapIndex_nonneg n i : 0 ≤ i → wrapIndex n i = i.
Proof. intros. unfold wrapIndex. case_decide; lia. Qed.

Lemma List_has_in_range {A} (l : list A) i :
  0 ≤ i < Z.of_nat (length l) → List_has l i = true.
Proof.
  intros Hi. unfold List_has. rewrite wrapIndex_nonneg by lia.
  by apply bool_decide_eq_true.
Qed.

Lemma List_delete_in_range {A} (l : list A) i :
  0 ≤ i < Z.of_nat (length l) → List_delete l i = delete (Z.to_nat i) l.
Proof.
  intros Hi. unfold List_delete.
  by rewrite List_has_in_range, wrapIndex_nonneg by lia.
Qed.

Lemma List_get_in_range {A} (l : list A) i :
  0 ≤ i → List_get l i = l !! Z.to_nat i.
Proof.
  intros Hi. unfold List_get. rewrite wrapIndex_nonneg by lia.
  by case_decide.
Qed.

Lemma List_set_in_range l i v :
  0 ≤ i < Z.of_nat (length l) → List_set l i v = <[Z.to_nat i := v]> l.
Proof.
  intros Hi. unfold List_set. rewrite wrapIndex_nonneg by lia.
  repeat case_decide; (done || lia).
Qed.

Lemma List_set_front l i v :
  Z.of_nat (length l) + i < 0 →
  List_set l i v
  = v :: replicate (Z.to_nat (- (Z.of_nat (length l) + i) - 1)) VUndefined ++ l.
Proof.
  intros Hi. unfold List_set, wrapIndex.
  rewrite (decide_True (P := i < 0)) by lia.
  by rewrite decide_True by lia.
Qed.

Lemma List_set_wrapped l i v :
  i < 0 → 0 ≤ Z.of_nat (length l) + i →
  List_set l i v = <[Z.to_nat (Z.of_nat (length l) + i) := v]> l.
Proof.
  intros Hneg Hi. unfold List_set, wrapIndex.
  rewrite (decide_True (P := i < 0)) by lia.
  rewrite decide_False by lia. by rewrite decide_True by lia.
Qed.

Lemma List_set_past l i v :
  Z.of_nat (length l) ≤ i →
  List_set l i v
  = l ++ replicate (Z.to_nat i - length l) VUndefined ++ [v].
Proof.
  intros Hi. unfold List_set, wrapIndex.
  rewrite (decide_False (P := i < 0)) by lia.
  rewrite decide_False by lia. by rewrite decide_False by lia.
Qed.

(** Reading back the slot that was just written, wherever it is. *)
Lemma List_get_set l i v : List_get (List_set l i v) i = Some v.
Proof.
  destruct (decide (i < 0)) as [Hneg|Hpos].
  - destruct (decide (Z.of_nat (length l) + i < 0)) as [Hfront|Hin].
    + rewrite List_set_front by done. unfold List_get, wrapIndex.
      cbn [length]. rewrite length_app, length_replicate.
      rewrite (decide_True (P := i < 0)) by lia.
      set (n := Z.of_nat (S _) + i). assert (n = 0) as -> by (subst n; lia).
      done.
    + rewrite List_set_wrapped by lia. unfold List_get, wrapIndex.
      rewrite length_insert.
      rewrite (decide_True (P := i < 0)) by lia.
      rewrite decide_True by lia.
      apply list_lookup_insert_eq. lia.
  - destruct (decide (i < Z.of_nat (length l))) as [Hin|Hpast].
    + rewrite List_set_in_range, List_get_in_range by lia.
      apply list_lookup_insert_eq. lia.
    + rewrite List_set_past, List_get_in_range by lia.
      rewrite lookup_app_r by lia.
      rewrite lookup_app_r by (rewrite length_replicate; lia).
      rewrite length_replicate.
      replace (_ - _ - _)%nat with 0%nat by lia. done.
Qed.

Lemma List_indexOf_ge l v : -1 ≤ List_indexOf l v.
Proof. induction l as [|x l IH]; simpl; repeat case_decide; lia. Qed.

Lemma List_indexOf_notin l v : v ∉ l → List_indexOf l v = -1.
Proof.
  induction l as [|x l IH]; simpl; [done|].
  intros Hnotin. apply not_elem_of_cons in Hnotin as [Hne Hl].
  rewrite decide_False by done. rewrite IH by done. done.
Qed.

(** A present value is found at a position that holds it. *)
Lemma List_indexOf_elem l v :
  v ∈ l →
  0 ≤ List_indexOf l v < Z.of_nat (length l)
  ∧ l !! Z.to_nat (List_indexOf l v) = Some v.
Proof.
  induction l as [|x l IH]; [by intros ?%elem_of_nil|].
  intros Hin. simpl. destruct (decide (x = v)) as [->|Hne].
  - split; [lia|done].
  - apply elem_of_cons in Hin as [?|Hin]; [congruence|].
    destruct (IH Hin) as [Hrange Hlook].
    rewrite decide_False by lia. split; [lia|].
    replace (Z.to_nat (1 + List_indexOf l v))
      with (S (Z.to_nat (List_indexOf l v))) by lia.
    done.
Qed.

Lemma entries_replace_keys es k v : (entries_replace es k v).*1 = es.*1.
Proof.
  unfold entries_replace. rewrite <- list_fmap_compose.
  apply list_fmap_ext. intros _ [k' v'] _. simpl. by case_decide.
Qed.

Lemma Record_set_declared r k v :
  k ∈ r.*1 → Record_set r k v = Ok (entries_replace r k v).
Proof.
  intros Hk. unfold Record_set, entries_has.
  by rewrite bool_decide_eq_true_2.
Qed.

Lemma Record_set_keys r k v r' : Record_set r k v = Ok r' → r'.*1 = r.*1.
Proof.
  unfold Record_set. destruct (entries_has r k); [|done].
  intros [= <-]. apply entries_replace_keys.
Qed.

End ImmutableFacts.

(** ** The tab reducer *)
Section MainReducersFacts.
Context {PM : PageModel}.

Lemma basic_CREATE_TAB state a :
  action.type a = types.CREATE_TAB →
  basic state a = Ok (createTab state (action.location a)).
Proof. intros Hty. unfold basic. by rewrite Hty. Qed.

Lemma basic_CLOSE_TAB state a :
  action.type a = types.CLOSE_TAB →
  basic state a = Ok (closeTab state (action.pageIndex a)).
Proof. intros Hty. unfold basic. by rewrite Hty. Qed.

Lemma initialState_invariant : TabInvariant initialState.
Proof. split; [done|]. unfold inRange, size. simpl. lia. Qed.

Lemma createTab_invariant state location :
  TabInvariant state → TabInvariant (createTab state location).
Proof.
  intros [Hperm Hcur]. unfold TabInvariant, inRange, liveIndices in *.
  simpl. unfold size in *. simpl. unfold List_push.
  rewrite length_app. simpl. split; [|lia].
  replace (Z.of_nat (length (pages state) + 1))
    with (Z.of_nat (S (length (pages state)))) by lia.
  rewrite seqZ_S, Hperm. done.
Qed.

(** Renumbering what is left of 0 .. n-1 once [i] is taken out. *)
Lemma renumber_seqZ (i n : Z) :
  0 ≤ i < n →
  (λ j, if decide (j < i) then j else j - 1) <$> (seqZ 0 i ++ seqZ (i + 1) (n - i - 1))
  = seqZ 0 (n - 1).
Proof.
  intros Hi. rewrite fmap_app.
  replace (n - 1) with (i + (n - i - 1)) by lia.
  rewrite seqZ_app by lia. f_equal.
  - rewrite <- (list_fmap_id (seqZ 0 i)) at 2.
    apply list_fmap_ext. intros _ j Hj%list_elem_of_lookup_2%elem_of_seqZ.
    rewrite decide_True by lia. done.
  - replace (seqZ (0 + i) (n - i - 1))
      with (Z.add (-1) <$> seqZ (i + 1) (n - i - 1))
      by (rewrite fmap_add_seqZ; f_equal; lia).
    apply list_fmap_ext. intros _ j Hj%list_elem_of_lookup_2%elem_of_seqZ.
    rewrite decide_False by lia. lia.
Qed.

Lemma closeTab_invariant state pageIndex :
  TabInvariant state → inRange state pageIndex →
  TabInvariant (closeTab state pageIndex).
Proof.
  intros [Hperm Hcur] Hi. unfold closeTab.
  destruct (decide (size state = 1)) as [|Hsize];
    [apply initialState_invariant|].
  unfold TabInvariant, inRange, liveIndices, size in *.
  assert (pageIndex ∈ pageOrder state) as Hin
    by (rewrite Hperm; apply elem_of_seqZ; lia).
  destruct (List_indexOf_elem _ _ Hin) as [Hk Hlook].
  assert (length (pageOrder state) = length (pages state)) as Hlen
    by (rewrite Hperm, length_seqZ; lia).
  simpl.
  rewrite (List_delete_in_range (pages state)) by lia.
  rewrite (List_delete_in_range (pageOrder state)) by lia.
  rewrite length_delete by (apply lookup_lt_is_Some; lia).
  split.
  - apply delete_Permutation in Hlook.
    apply (transitivity (symmetry Hperm)) in Hlook.
    replace (Z.of_nat (length (pages state)))
      with (pageIndex + (1 + (Z.of_nat (length (pages state)) - pageIndex - 1)))
      in Hlook by lia.
    rewrite seqZ_app, (seqZ_app _ 1) in Hlook by lia.
    rewrite (seqZ_cons _ 1), (seqZ_nil _ (Z.pred 1)) in Hlook by lia.
    simpl in Hlook. rewrite <- Permutation_middle in Hlook.
    apply (inj (cons pageIndex)) in Hlook. rewrite <- Hlook.
    replace (0 + pageIndex + 1) with (pageIndex + 1) by lia.
    rewrite (renumber_seqZ pageIndex (Z.of_nat (length (pages state)))) by lia.
    by replace (Z.of_nat (length (pages state) - 1))
      with (Z.of_nat (length (pages state)) - 1) by lia.
  - repeat case_decide; lia.
Qed.

Lemma CreateCloseRun_invariant state actions :
  TabInvariant state → CreateCloseRun state actions →
  ∃ state', dispatchAll state actions = Ok state' ∧ TabInvariant state'.
Proof.
  intros Hinv Hrun. induction Hrun as
    [state|state a rest Hty _ IH|state a rest Hty Hi _ IH]; simpl.
  - eauto.
  - rewrite basic_CREATE_TAB by done. simpl.
    apply IH, createTab_invariant, Hinv.
  - rewrite basic_CLOSE_TAB by done. simpl.
    by apply IH, closeTab_invariant.
Qed.

(** C1: every run of CreateTab and CloseTab actions with in-range indices,
    started in the initial state, ends in a state whose [pageOrder] is a
    permutation of the indices of the live pages and whose
    [currentPageIndex] addresses a live page.  (The initial state is such
    a state too, so the alternative the claim allows is never needed.) *)
Theorem create_close_keeps_order_and_selection (actions : list action.t) :
  CreateCloseRun initialState actions →
  ∃ state,
    dispatchAll initialState actions = Ok state
    ∧ pageOrder state ≡ₚ seqZ 0 (Z.of_nat (length (pages state)))
    ∧ 0 ≤ currentPageIndex state < Z.of_nat (length (pages state)).
Proof.
  intros Hrun.
  destruct (CreateCloseRun_invariant _ _ initialState_invariant Hrun)
    as (state & Hdispatch & Hperm & Hcur).
  by exists state.
Qed.

(** C7: closing a tab of a one-page state, whatever the index, gives the
    initial state: one page at the home location, order [0], current 0. *)
Theorem closeTab_single_page_resets (state : State) (pageIndex : Z) :
  length (pages state) = 1%nat →
  basic state (CloseTab pageIndex)
  = Ok {| pages := [Page [("location", VStr "https://www.mozilla.org/")]];
          pageOrder := [0];
          currentPageIndex := 0 |}
  ∧ locationOf (Page [("location", VStr "https://www.mozilla.org/")])
    = VStr "https://www.mozilla.org/".
Proof.
  intros Hone. split; [|done].
  rewrite basic_CLOSE_TAB by done. unfold closeTab, size.
  rewrite Hone. by rewrite decide_True by done.
Qed.

(** C10: an action whose type is none of the eight recognised ones leaves
    the state as it is. *)
Theorem basic_unknown_type (state : State) (a : action.t) :
  action.type a ∉ types.all → basic state a = Ok state.
Proof.
  intros Hnot. unfold basic.
  repeat (case_decide as Hty;
          [exfalso; apply Hnot; rewrite Hty; unfold types.all;
           set_solver|clear Hty]).
  done.
Qed.

Lemma basic_SET_PAGE_DETAILS state a :
  action.type a = types.SET_PAGE_DETAILS →
  basic state a = setPageDetails state (action.pageIndex a) (action.details a).
Proof. intros Hty. unfold basic. by rewrite Hty. Qed.

Lemma basic_SET_LOCATION state a :
  action.type a = types.SET_LOCATION →
  basic state a = setLocation state (action.userTyped a).
Proof. intros Hty. unfold basic. by rewrite Hty. Qed.

(** [setIn] on a live slot that holds a record touches that record only. *)
Lemma setIn_pages_record state index r key value :
  inRange state index →
  pages state !! Z.to_nat index = Some (VRecord r) →
  setIn_pages state index key value
  = r' ← Record_set r key value;
    Ok {| pages := <[Z.to_nat index := VRecord r']> (pages state);
          pageOrder := pageOrder state;
          currentPageIndex := currentPageIndex state |}.
Proof.
  unfold inRange, size. intros Hi Hlook. unfold setIn_pages.
  rewrite List_get_in_range, Hlook by lia.
  destruct (Record_set r key value) as [r'|e]; simpl; [|done].
  by rewrite List_set_in_range by lia.
Qed.

Lemma setPageDetails_loop_record details : ∀ state index r,
  inRange state index →
  pages state !! Z.to_nat index = Some (VRecord r) →
  setPageDetails_loop state index details
  = r' ← applyDetails r details;
    Ok {| pages := <[Z.to_nat index := VRecord r']> (pages state);
          pageOrder := pageOrder state;
          currentPageIndex := currentPageIndex state |}.
Proof.
  induction details as [|[key value] rest IH]; intros state index r Hi Hlook.
  - simpl. rewrite list_insert_id by done. by destruct state.
  - simpl. rewrite (setIn_pages_record _ _ r) by done.
    destruct (Record_set r key value) as [r1|e]; simpl; [|done].
    assert (Z.to_nat index < length (pages state))%nat
      by (unfold inRange, size in Hi; lia).
    rewrite (IH _ index r1); simpl.
    + destruct (applyDetails r1 rest); simpl; [|done].
      by rewrite list_insert_insert_eq.
    + unfold inRange, size in *. simpl. by rewrite length_insert.
    + by apply list_lookup_insert_eq.
Qed.

(** The declared keys can always be set, and stay declared. *)
Lemma applyDetails_declared details : ∀ r,
  Forall (λ kv, kv.1 ∈ r.*1) details →
  ∃ r', applyDetails r details = Ok r' ∧ r'.*1 = r.*1.
Proof.
  induction details as [|[key value] rest IH]; intros r Hkeys; simpl.
  - eauto.
  - apply Forall_cons in Hkeys as [Hkey Hrest]. simpl in Hkey.
    rewrite Record_set_declared by done. simpl.
    destruct (IH (entries_replace r key value)) as (r' & Happly & Hsame).
    + by rewrite entries_replace_keys.
    + exists r'. split; [done|]. by rewrite Hsame, entries_replace_keys.
Qed.

Lemma List_get_elem {A} (l : list A) i x : List_get l i = Some x → x ∈ l.
Proof.
  unfold List_get. case_decide; [|done]. apply list_elem_of_lookup_2.
Qed.

Lemma pages_updatable state index :
  Forall isPage (pages state) → updatable (List_get (pages state) index).
Proof.
  intros Hpages. destruct (List_get (pages state) index) as [v|] eqn:Hget;
    [|done].
  apply List_get_elem in Hget. rewrite Forall_forall in Hpages.
  specialize (Hpages v Hget). by destruct v.
Qed.

Lemma setIn_pages_updatable state index key value :
  updatable (List_get (pages state) index) → key ∈ Page_keys →
  ∃ state', setIn_pages state index key value = Ok state'
            ∧ updatable (List_get (pages state') index).
Proof.
  intros Hslot Hkey. unfold setIn_pages.
  destruct (List_get (pages state) index) as [[| | | | |r|m]|];
    simpl in Hslot; try done.
  - rewrite Record_set_declared by (by rewrite Hslot). simpl.
    eexists. split; [done|]. simpl. rewrite List_get_set. simpl.
    by rewrite entries_replace_keys.
  - eexists. split; [done|]. simpl. by rewrite List_get_set.
  - eexists. split; [done|]. simpl. by rewrite List_get_set.
Qed.

Lemma setPageDetails_loop_updatable details : ∀ state index,
  updatable (List_get (pages state) index) →
  Forall (λ kv, kv.1 ∈ Page_keys) details →
  ∃ state', setPageDetails_loop state index details = Ok state'.
Proof.
  induction details as [|[key value] rest IH]; intros state index Hslot Hkeys;
    simpl; [eauto|].
  apply Forall_cons in Hkeys as [Hkey Hrest].
  destruct (setIn_pages_updatable state index key value Hslot Hkey)
    as (state1 & -> & Hslot1).
  simpl. by apply IH.
Qed.

(** C9, amended: on a state whose page slots all hold [Page] records, the
    reducer returns a state for every action, whatever its type and
    whatever integer its [pageIndex] is, provided the keys of [details]
    are declared keys of [Page]. *)
Theorem basic_total_on_pages (state : State) (a : action.t) :
  Forall isPage (pages state) →
  Forall (λ kv, kv.1 ∈ Page_keys) (action.details a) →
  ∃ state', basic state a = Ok state'.
Proof.
  intros Hpages Hkeys. unfold basic. repeat case_decide; eauto.
  - destruct (setIn_pages_updatable state (currentPageIndex state)
                "userTyped" (action.userTyped a)) as (state' & Hset & _);
      [by apply pages_updatable| |by exists state'].
    unfold Page_keys, Page_defaults. simpl. set_solver.
  - by apply setPageDetails_loop_updatable; [apply pages_updatable|].
Qed.

Lemma locationOf_Page location :
  locationOf (Page [("location", location)]) = location.
Proof. done. Qed.

(** What DuplicateTab does with an index in range: the order and the
    selection change as for CreateTab, and the [location] of the new page
    is the page found at the index. *)
Lemma duplicateTab_in_range state pageIndex page :
  inRange state pageIndex →
  pages state !! Z.to_nat pageIndex = Some page →
  basic state (DuplicateTab pageIndex)
  = Ok {| pages := pages state ++ [Page [("location", page)]];
          pageOrder := pageOrder state ++ [size state];
          currentPageIndex := size state |}.
Proof.
  unfold inRange. intros Hi Hlook. unfold basic. simpl.
  unfold duplicateTab. by rewrite List_get_in_range, Hlook by lia.
Qed.

(** C3, on the code: duplicating the home page of the initial state
    appends a page, appends its index to the order and selects it, as
    CreateTab does; the [location] of the new page is the home page record
    itself and not the home location that record holds. *)
Theorem duplicateTab_location_is_the_page :
  let home := Page [("location", VStr HOME_PAGE)] in
  basic initialState (DuplicateTab 0)
  = Ok {| pages := [home; Page [("location", home)]];
          pageOrder := [0; 1];
          currentPageIndex := 1 |}
  ∧ locationOf home = VStr HOME_PAGE
  ∧ locationOf (Page [("location", home)]) = home
  ∧ locationOf (Page [("location", home)]) ≠ locationOf home.
Proof. repeat split; done. Qed.

(** CloseTab of a page that is in range and listed in the order, when there
    is more than one page: the page leaves [pages], its entry leaves
    [pageOrder], the entries above it move down by one, and an unselected
    closed page moves [currentPageIndex] down only from above. *)
Lemma closeTab_in_range state pageIndex :
  size state ≠ 1 → inRange state pageIndex → pageIndex ∈ pageOrder state →
  let orderIndex := List_indexOf (pageOrder state) pageIndex in
  closeTab state pageIndex
  = {| pages := delete (Z.to_nat pageIndex) (pages state);
       pageOrder :=
         (λ i, if decide (i < pageIndex) then i else i - 1)
           <$> delete (Z.to_nat orderIndex) (pageOrder state);
       currentPageIndex :=
         if decide (currentPageIndex state = pageIndex) then
           (if decide (orderIndex > 0) then orderIndex - 1 else orderIndex)
         else if decide (currentPageIndex state > pageIndex)
              then currentPageIndex state - 1
              else currentPageIndex state |}.
Proof.
  intros Hsize Hi Hin orderIndex. subst orderIndex.
  unfold inRange, closeTab, size in *.
  rewrite decide_False by done.
  destruct (List_indexOf_elem _ _ Hin) as [Hk _].
  rewrite (List_delete_in_range (pages state)) by lia.
  by rewrite (List_delete_in_range (pageOrder state)) by lia.
Qed.

(** C2, on the code: in a three-page state displayed in the order
    2, 0, 1 with page 1 selected, closing page 1 removes it from the pages
    and from the order and renumbers the order, but leaves
    [currentPageIndex] at 1 (the display position before the closed
    page), while the page displayed immediately before the closed one has
    index 0. *)
Theorem closeTab_selects_display_position :
  let state :=
    {| pages := [Page [("location", VStr HOME_PAGE)];
                 Page [("location", VStr "http://b.com")];
                 Page [("location", VStr "http://c.com")]];
       pageOrder := [2; 0; 1];
       currentPageIndex := 1 |} in
  dispatchAll initialState
    [CreateTab (VStr "http://b.com"); CreateTab (VStr "http://c.com");
     SetPageOrder [2; 0; 1]; SetCurrentTab 1]
  = Ok state
  ∧ basic state (CloseTab 1)
    = Ok {| pages := [Page [("location", VStr HOME_PAGE)];
                      Page [("location", VStr "http://c.com")]];
            pageOrder := [1; 0];
            currentPageIndex := 1 |}
  ∧ displayPredecessor state 1 = Some 0.
Proof. repeat split; done. Qed.

End MainReducersFacts.

(** ** Replication of profile diffs *)
Section BrowserFacts.
Import Browser.
Variable fromId : Z → bool.

(** C4: when the bookmarks go from empty to one URL and nothing else
    changes, one run of the diff engine produces one effect in all: a
    [profile-diff] event that carries the bookmarks projection, sent to
    the live windows.  No event for the locations, no menu rebuild. *)
Theorem bookmarks_change_sends_one_diff (previous next : ProfileState)
    (url : string) :
  bookmarks previous = ∅ →
  bookmarks next = {[url]} →
  locations next = locations previous →
  recentBookmarks next = recentBookmarks previous →
  browserWindows next = browserWindows previous →
  sendDiffsToWindows fromId (Some previous) next
  = (Some next,
     [SendToAllWindows "profile-diff" (profileDiffs.bookmarks [url])
        (filter (λ id, fromId id = true) (elements (browserWindows next)))]).
Proof.
  intros Hprev Hnext Hloc Hrecent Hwin.
  unfold sendDiffsToWindows, sendToAllWindows, Immutable_is.
  assert (bookmarks next ≠ bookmarks previous) as Hchanged
    by (rewrite Hprev, Hnext; set_solver).
  rewrite (bool_decide_eq_true_2 _ Hwin), (bool_decide_eq_true_2 _ Hrecent),
    (bool_decide_eq_true_2 _ Hloc), (bool_decide_eq_false_2 _ Hchanged).
  simpl. by rewrite Hnext, elements_singleton.
Qed.
End BrowserFacts.

(** ** Bookmark and unbookmark *)
Section MainActionsFacts.
Import MainActions.
Variable UA_SERVICE_HTTP : string.

(** The escaped form the test of unbookmark expects. *)
Lemma encodeURIComponent_moz1 :
  URI.encodeURIComponent "http://moz1.com" = "http%3A%2F%2Fmoz1.com".
Proof. reflexivity. Qed.

(** C6: Bookmark issues no DELETE call; Unbookmark issues one, to
    [{base}/stars/{url-encoded url}], with the session id of the page in
    its body. *)
Theorem unbookmark_issues_one_DELETE (store : Store)
    (pageId url title : string) (sessionId : JsVal) :
  entries_get (sessionIds store) pageId = Some sessionId →
  deletes (bookmark UA_SERVICE_HTTP store pageId url title).2 = []
  ∧ deletes (unbookmark UA_SERVICE_HTTP store pageId url).2
    = [{| MainActions.url :=
            String.append UA_SERVICE_HTTP
              (String.append "/stars/" (URI.encodeURIComponent url));
          method := "DELETE";
          json_session := sessionId |}].
Proof.
  intros Hsession. unfold deletes, sessionOf. simpl.
  unfold sessionOf, stars. rewrite Hsession. split; reflexivity.
Qed.
End MainActionsFacts.

(** ** The properties at concrete inputs *)
Section Instances.
#[local] Existing Instance examplePageModel.
Import Browser MainActions.

Lemma create_close_keeps_order_and_selection_witness :
  CreateCloseRun initialState [CreateTab (VStr "http://a.com"); CloseTab 0]
  ∧ ∃ state,
      dispatchAll initialState [CreateTab (VStr "http://a.com"); CloseTab 0]
      = Ok state
      ∧ pageOrder state ≡ₚ seqZ 0 (Z.of_nat (length (pages state)))
      ∧ 0 ≤ currentPageIndex state < Z.of_nat (length (pages state)).
Proof.
  assert (CreateCloseRun initialState
            [CreateTab (VStr "http://a.com"); CloseTab 0]) as Hrun.
  { apply run_create; [reflexivity|].
    apply run_close; [reflexivity|unfold inRange, size; simpl; lia|].
    apply run_done. }
  split; [exact Hrun|].
  exact (create_close_keeps_order_and_selection _ Hrun).
Defined.

Lemma closeTab_single_page_resets_witness :
  let state :=
    {| pages := [Page [("location", VStr "http://a.com")]];
       pageOrder := [0];
       currentPageIndex := 0 |} in
  length (pages state) = 1%nat
  ∧ basic state (CloseTab 5)
    = Ok {| pages := [Page [("location", VStr "https://www.mozilla.org/")]];
            pageOrder := [0];
            currentPageIndex := 0 |}.
Proof.
  intros state. split; [reflexivity|].
  exact (proj1 (closeTab_single_page_resets state 5 eq_refl)).
Defined.

Lemma basic_unknown_type_witness :
  (action.type (action.blank "RELOAD") ∉ types.all)
  ∧ basic initialState (action.blank "RELOAD") = Ok initialState.
Proof.
  assert (action.type (action.blank "RELOAD") ∉ types.all) as Hnot
    by (intros Hin; apply list_elem_of_In in Hin; simpl in Hin;
        repeat (destruct Hin as [Heq|Hin]; [discriminate Heq|]);
        exact Hin).
  split; [exact Hnot|].
  exact (basic_unknown_type initialState _ Hnot).
Defined.

Lemma basic_total_on_pages_witness :
  let a := SetPageDetails 7 [("title", VStr "x")] in
  Forall isPage (pages initialState)
  ∧ Forall (λ kv, kv.1 ∈ Page_keys) (action.details a)
  ∧ ∃ state', basic initialState a = Ok state'.
Proof.
  intros a.
  assert (Forall isPage (pages initialState)) as Hpages
    by (repeat constructor).
  assert (Forall (λ kv, kv.1 ∈ Page_keys) (action.details a)) as Hkeys
    by (repeat constructor).
  split; [exact Hpages|]. split; [exact Hkeys|].
  exact (basic_total_on_pages initialState a Hpages Hkeys).
Defined.

(** C9 as stated fails: an out-of-range SetPageDetails leaves holes in the
    page list, and the reducer raises when a later SetPageDetails or
    SetLocation is aimed at a hole; it also raises on a key that [Page]
    does not declare. *)
Lemma basic_raises_on_hole :
  let holed :=
    {| pages := [Page [("location", VStr HOME_PAGE)];
                 VUndefined; VUndefined; VMap [("title", VStr "x")]];
       pageOrder := [0];
       currentPageIndex := 0 |} in
  basic initialState (SetPageDetails 3 [("title", VStr "x")]) = Ok holed
  ∧ ¬ (∃ state', basic holed (SetPageDetails 1 [("title", VStr "y")]) = Ok state')
  ∧ ¬ (∃ state', basic (setCurrentTab holed 2) (SetLocation (VStr "y")) = Ok state')
  ∧ ¬ (∃ state', basic initialState (SetPageDetails 0 [("bogus", VNum 1)]) = Ok state').
Proof.
  intros holed. split; [reflexivity|].
  repeat split; intros [state' Hok]; vm_compute in Hok; discriminate Hok.
Qed.

Lemma bookmarks_change_sends_one_diff_witness :
  let previous := mkProfileState {[1; 2]} ["http://b.com"] ∅ ∅ in
  let next := mkProfileState {[1; 2]} ["http://b.com"] {["http://a.com"]} ∅ in
  let fromId := λ id : Z, bool_decide (id = 1) in
  Browser.bookmarks previous = ∅
  ∧ Browser.bookmarks next = {["http://a.com"]}
  ∧ locations next = locations previous
  ∧ recentBookmarks next = recentBookmarks previous
  ∧ browserWindows next = browserWindows previous
  ∧ sendDiffsToWindows fromId (Some previous) next
    = (Some next,
       [SendToAllWindows "profile-diff" (profileDiffs.bookmarks ["http://a.com"])
          (filter (λ id, fromId id = true) (elements (browserWindows next)))]).
Proof.
  intros previous next fromId. repeat (split; [reflexivity|]).
  exact (bookmarks_change_sends_one_diff fromId previous next "http://a.com"
           eq_refl eq_refl eq_refl eq_refl eq_refl).
Defined.

Lemma unbookmark_issues_one_DELETE_witness :
  let store := {| sessionIds := [("page-1", VNum 1)];
                  MainActions.bookmarks := ∅ |} in
  entries_get (sessionIds store) "page-1" = Some (VNum 1)
  ∧ deletes (bookmark "http://ua.test" store "page-1" "http://moz1.com" "moz1").2
    = []
  ∧ deletes (unbookmark "http://ua.test" store "page-1" "http://moz1.com").2
    = [{| url := "http://ua.test/stars/http%3A%2F%2Fmoz1.com";
          method := "DELETE";
          json_session := VNum 1 |}].
Proof.
  intros store. split; [reflexivity|].
  exact (unbookmark_issues_one_DELETE "http://ua.test" store "page-1"
           "http://moz1.com" "moz1" (VNum 1) eq_refl).
Defined.

End Instances.

(** * Further properties *)

(** ** Keyed entries *)
Section EntriesFacts.

Lemma entries_get_None es k : k ∉ es.*1 → entries_get es k = None.
Proof.
  induction es as [|[k' v'] es IH]; simpl; [done|].
  intros Hnot. apply not_elem_of_cons in Hnot as [Hne Hrest].
  rewrite decide_False by done. by apply IH.
Qed.

Lemma entries_get_app es1 es2 k :
  entries_get (es1 ++ es2) k
  = match entries_get es1 k with
    | Some v => Some v
    | None => entries_get es2 k
    end.
Proof.
  induction es1 as [|[k' v'] es1 IH]; simpl; [done|].
  by case_decide.
Qed.

Lemma entries_get_replace_eq es k v :
  k ∈ es.*1 → entries_get (entries_replace es k v) k = Some v.
Proof.
  induction es as [|[k' v'] es IH]; simpl; [by intros ?%elem_of_nil|].
  intros Hin. destruct (decide (k' = k)) as [->|Hne]; simpl.
  - by rewrite decide_True.
  - rewrite decide_False by done.
    apply elem_of_cons in Hin as [?|Hin]; [congruence|]. by apply IH.
Qed.

Lemma entries_get_replace_ne es k v k' :
  k ≠ k' → entries_get (entries_replace es k v) k' = entries_get es k'.
Proof.
  intros Hne. induction es as [|[k0 v0] es IH]; simpl; [done|].
  destruct (decide (k0 = k)) as [->|Hk0]; simpl.
  - by rewrite !decide_False by done.
  - rewrite IH. done.
Qed.

Lemma entries_get_Map_set m k v k' :
  entries_get (Map_set m k v) k'
  = if decide (k = k') then Some v else entries_get m k'.
Proof.
  unfold Map_set, entries_has. case_bool_decide as Hhas.
  - case_decide as Hk.
    + subst k'. by apply entries_get_replace_eq.
    + by apply entries_get_replace_ne.
  - rewrite entries_get_app. simpl. case_decide as Hk.
    + subst k'. by rewrite entries_get_None.
    + by destruct (entries_get m k').
Qed.

(** A declared key of a fresh record reads as the value given for it, or as
    its default. *)
Lemma entries_get_Record_new defaults values k :
  entries_get (Record_new defaults values) k
  = (λ d, default d (entries_get values k)) <$> entries_get defaults k.
Proof.
  unfold Record_new.
  induction defaults as [|[k' d'] defaults IH]; simpl; [done|].
  case_decide as Hk; [by subst k'|done].
Qed.

Lemma Record_new_keys defaults values :
  (Record_new defaults values).*1 = defaults.*1.
Proof.
  unfold Record_new. rewrite <- list_fmap_compose.
  by apply list_fmap_ext.
Qed.

End EntriesFacts.

(** ** More facts about the modelled lists *)
Section ListFacts.

Lemma List_delete_past {A} (l : list A) i :
  Z.of_nat (length l) ≤ i → List_delete l i = l.
Proof.
  intros Hi. unfold List_delete, List_has. rewrite wrapIndex_nonneg by lia.
  by rewrite bool_decide_eq_false_2 by lia.
Qed.

Lemma delete_last {A} (l : list A) :
  delete (length l - 1)%nat l = take (length l - 1) l.
Proof.
  rewrite delete_take_drop. rewrite drop_ge by lia. by rewrite app_nil_r.
Qed.

(** Deleting at -1 drops the last entry. *)
Lemma List_delete_minus_one {A} (l : list A) :
  List_delete l (-1) = take (length l - 1) l.
Proof.
  destruct l as [|x l]; [done|].
  unfold List_delete, List_has, wrapIndex.
  rewrite decide_True by lia. rewrite bool_decide_eq_true_2 by (simpl; lia).
  replace (Z.to_nat (Z.of_nat (length (x :: l)) + -1))
    with (length (x :: l) - 1)%nat by lia.
  apply delete_last.
Qed.

Lemma delete_snoc {A} (l : list A) x : delete (length l) (l ++ [x]) = l.
Proof.
  rewrite delete_take_drop, take_app_length.
  rewrite drop_ge by (rewrite length_app; simpl; lia). by rewrite app_nil_r.
Qed.

Lemma List_indexOf_snoc l v :
  v ∉ l → List_indexOf (l ++ [v]) v = Z.of_nat (length l).
Proof.
  induction l as [|x l IH]; simpl.
  - intros _. by rewrite decide_True.
  - intros Hnot. apply not_elem_of_cons in Hnot as [Hne Hl].
    rewrite decide_False by done. rewrite IH by done.
    rewrite decide_False by lia. lia.
Qed.

Lemma List_get_out_of_range {A} (l : list A) i :
  Z.of_nat (length l) ≤ i ∨ i < - Z.of_nat (length l) → List_get l i = None.
Proof.
  intros Hi. unfold List_get, wrapIndex. destruct Hi as [Hi|Hi].
  - rewrite (decide_False (P := i < 0)) by lia. rewrite decide_True by lia.
    apply lookup_ge_None. lia.
  - rewrite (decide_True (P := i < 0)) by lia. by rewrite decide_False by lia.
Qed.

End ListFacts.

(** ** The tab reducer: edges, round trips and well-formed runs *)
Section MainReducersMore.
Context {PM : PageModel}.

Lemma isPage_Page values : isPage (Page values).
Proof. unfold isPage, Page, Page_keys. apply Record_new_keys. Qed.

Lemma TabInvariant_length state :
  TabInvariant state →
  length (pageOrder state) = length (pages state)
  ∧ (1 ≤ length (pages state))%nat
  ∧ ∀ x, x ∈ pageOrder state → 0 ≤ x < Z.of_nat (length (pages state)).
Proof.
  intros [Hperm Hcur]. unfold liveIndices, inRange, size in *.
  split; [|split].
  - rewrite Hperm, length_seqZ. lia.
  - lia.
  - intros x Hx. rewrite Hperm in Hx. apply elem_of_seqZ in Hx. lia.
Qed.

(** Renumbering does nothing to entries below the removed index. *)
Lemma renumber_below (l : list Z) pageIndex :
  (∀ x, x ∈ l → x < pageIndex) →
  (λ i, if decide (i < pageIndex) then i else i - 1) <$> l = l.
Proof.
  intros Hbelow. rewrite <- (list_fmap_id l) at 2.
  apply list_fmap_ext. intros _ x Hx%list_elem_of_lookup_2.
  by rewrite decide_True by auto.
Qed.

Lemma renumber_above (l : list Z) pageIndex :
  (∀ x, x ∈ l → pageIndex ≤ x) →
  (λ i, if decide (i < pageIndex) then i else i - 1) <$> l
  = (λ i, i - 1) <$> l.
Proof.
  intros Habove. apply list_fmap_ext. intros _ x Hx%list_elem_of_lookup_2.
  rewrite decide_False; [done|]. specialize (Habove x Hx). lia.
Qed.

(** X4: CloseTab never leaves a window without a page, and takes away at most
    one: whatever the index, a state with a page keeps at least one and
    gains none. *)
Theorem closeTab_keeps_a_page (state : State) (pageIndex : Z) :
  (1 ≤ length (pages state))%nat →
  (1 ≤ length (pages (closeTab state pageIndex)) ≤ length (pages state))%nat
  ∧ (length (pages state) - 1 ≤ length (pages (closeTab state pageIndex)))%nat.
Proof.
  intros Hlen. unfold closeTab, size. case_decide as Hone; simpl; [lia|].
  unfold List_delete. destruct (List_has (pages state) pageIndex) eqn:Hhas;
    [|lia].
  unfold List_has in Hhas. apply bool_decide_eq_true in Hhas.
  rewrite length_delete by (apply lookup_lt_is_Some; lia). lia.
Qed.

(** X5: CloseTab with an index past the last page, on a well-formed state with
    several pages: no page is removed and the selection stays, but the last
    entry of [pageOrder] is dropped, so the order no longer lists every
    page. *)
Theorem closeTab_past_the_end (state : State) (pageIndex : Z) :
  TabInvariant state → size state ≠ 1 → size state ≤ pageIndex →
  closeTab state pageIndex
  = {| pages := pages state;
       pageOrder := take (length (pageOrder state) - 1) (pageOrder state);
       currentPageIndex := currentPageIndex state |}
  ∧ ¬ TabInvariant (closeTab state pageIndex).
Proof.
  intros Hinv Hsize Hi.
  destruct (TabInvariant_length _ Hinv) as (Hlen & Hpos & Hbound).
  destruct Hinv as [Hperm Hcur]. unfold inRange, size in *.
  assert (closeTab state pageIndex
          = {| pages := pages state;
               pageOrder := take (length (pageOrder state) - 1) (pageOrder state);
               currentPageIndex := currentPageIndex state |}) as Heq.
  { unfold closeTab, size. rewrite decide_False by done.
    rewrite List_delete_past by lia.
    rewrite List_indexOf_notin
      by (intros Hin; specialize (Hbound _ Hin); lia).
    rewrite List_delete_minus_one.
    rewrite renumber_below
      by (intros x [j [Hx _]]%elem_of_take;
          apply list_elem_of_lookup_2 in Hx; specialize (Hbound _ Hx); lia).
    f_equal. repeat case_decide; lia. }
  split; [exact Heq|]. rewrite Heq. intros [Hperm' _].
  apply Permutation_length in Hperm'. unfold liveIndices, size in Hperm'.
  simpl in Hperm'. rewrite length_take, length_seqZ in Hperm'. lia.
Qed.

(** X6: CloseTab with a negative index, on a well-formed state with several
    pages: the page list treats the index as counting from the end, while
    the order loses its last entry, every remaining entry is lowered by one
    and so is the selection. *)
Theorem closeTab_negative_index (state : State) (pageIndex : Z) :
  TabInvariant state → size state ≠ 1 → pageIndex < 0 →
  closeTab state pageIndex
  = {| pages := List_delete (pages state) pageIndex;
       pageOrder :=
         (λ i, i - 1) <$> take (length (pageOrder state) - 1) (pageOrder state);
       currentPageIndex := currentPageIndex state - 1 |}
  ∧ (pageIndex = -1 →
     pages (closeTab state pageIndex)
     = take (length (pages state) - 1) (pages state)).
Proof.
  intros Hinv Hsize Hi.
  destruct (TabInvariant_length _ Hinv) as (Hlen & Hpos & Hbound).
  destruct Hinv as [Hperm Hcur]. unfold inRange, size in *.
  assert (closeTab state pageIndex
          = {| pages := List_delete (pages state) pageIndex;
               pageOrder :=
                 (λ i, i - 1)
                   <$> take (length (pageOrder state) - 1) (pageOrder state);
               currentPageIndex := currentPageIndex state - 1 |}) as Heq.
  { unfold closeTab, size. rewrite decide_False by done.
    rewrite List_indexOf_notin
      by (intros Hin; specialize (Hbound _ Hin); lia).
    rewrite List_delete_minus_one.
    rewrite renumber_above
      by (intros x [j [Hx _]]%elem_of_take;
          apply list_elem_of_lookup_2 in Hx; specialize (Hbound _ Hx); lia).
    f_equal. repeat case_decide; lia. }
  split; [exact Heq|]. intros ->. rewrite Heq. simpl.
  apply List_delete_minus_one.
Qed.

(** X3: Creating a tab and closing it at once (it has index [size state]), on a
    well-formed state: the pages and the order are back as they were, and
    the last page is selected, whichever page was selected before. *)
Theorem createTab_then_closeTab (state : State) (location : JsVal) :
  TabInvariant state →
  dispatchAll state [CreateTab location; CloseTab (size state)]
  = Ok {| pages := pages state;
          pageOrder := pageOrder state;
          currentPageIndex := size state - 1 |}.
Proof.
  intros Hinv.
  destruct (TabInvariant_length _ Hinv) as (Hlen & Hpos & Hbound).
  simpl. f_equal.
  unfold closeTab, createTab, size, List_push. simpl.
  rewrite length_app. simpl. rewrite decide_False by lia.
  rewrite (List_delete_in_range (pages state ++ _))
    by (rewrite length_app; simpl; lia).
  rewrite Nat2Z.id, delete_snoc.
  rewrite List_indexOf_snoc
    by (intros Hin; specialize (Hbound _ Hin); lia).
  rewrite (List_delete_in_range (pageOrder state ++ _))
    by (rewrite length_app; simpl; lia).
  rewrite Nat2Z.id, delete_snoc.
  rewrite renumber_below by (intros x Hx; specialize (Hbound _ Hx); lia).
  f_equal. rewrite decide_True by done. rewrite decide_True by lia. lia.
Qed.

Lemma duplicateTab_invariant state pageIndex :
  TabInvariant state → TabInvariant (duplicateTab state pageIndex).
Proof.
  intros [Hperm Hcur]. unfold TabInvariant, inRange, liveIndices in *.
  simpl. unfold size in *. simpl. unfold List_push.
  rewrite length_app. simpl. split; [|lia].
  replace (Z.of_nat (length (pages state) + 1))
    with (Z.of_nat (S (length (pages state)))) by lia.
  rewrite seqZ_S, Hperm. done.
Qed.

Lemma GoodState_initialState : GoodState initialState.
Proof.
  split; [apply initialState_invariant|].
  repeat constructor. apply isPage_Page.
Qed.

(** Writing a [Page] record into a live slot keeps a good state good. *)
Lemma GoodState_insert state (i : nat) r :
  GoodState state → r.*1 = Page_keys →
  GoodState {| pages := <[i := VRecord r]> (pages state);
               pageOrder := pageOrder state;
               currentPageIndex := currentPageIndex state |}.
Proof.
  intros [[Hperm Hcur] Hpages] Hkeys.
  unfold GoodState, TabInvariant, inRange, liveIndices, size in *. simpl.
  rewrite length_insert. split; [done|]. by apply Forall_insert.
Qed.

(** A live slot of a good state holds a record with the keys of [Page]. *)
Lemma GoodState_lookup state index :
  GoodState state → inRange state index →
  ∃ r, pages state !! Z.to_nat index = Some (VRecord r) ∧ r.*1 = Page_keys.
Proof.
  intros [_ Hpages] Hi. unfold inRange, size in Hi.
  destruct (lookup_lt_is_Some_2 (pages state) (Z.to_nat index)) as [v Hv];
    [lia|].
  pose proof (Forall_lookup_1 _ _ _ _ Hpages Hv) as Hpage.
  destruct v; simpl in Hpage; try done. eauto.
Qed.

Lemma setPageDetails_loop_good state index details :
  GoodState state → inRange state index →
  Forall (λ kv, kv.1 ∈ Page_keys) details →
  ∃ state', setPageDetails_loop state index details = Ok state'
            ∧ GoodState state'.
Proof.
  intros Hgood Hi Hkeys.
  destruct (GoodState_lookup _ _ Hgood Hi) as (r & Hlook & Hr).
  rewrite (setPageDetails_loop_record details state index r Hi Hlook).
  destruct (applyDetails_declared details r) as (r' & -> & Hr');
    [by rewrite Hr|].
  simpl. eexists. split; [done|].
  apply GoodState_insert; [done|]. by rewrite Hr'.
Qed.

(** One well-formed action on a good state gives a good state. *)
Lemma basic_keeps_GoodState state a :
  GoodState state → wellFormedAction state a →
  ∃ state', basic state a = Ok state' ∧ GoodState state'.
Proof.
  intros Hgood Hwf. pose proof Hgood as [Hinv Hpages].
  unfold basic, wellFormedAction in *.
  destruct (decide (action.type a = types.CREATE_TAB)) as [Hty|_].
  { eexists. split; [done|]. split; [by apply createTab_invariant|].
    simpl. apply Forall_app. split; [done|].
    repeat constructor. apply isPage_Page. }
  destruct (decide (action.type a = types.DUPLICATE_TAB)) as [Hty|_].
  { eexists. split; [done|]. split; [by apply duplicateTab_invariant|].
    simpl. apply Forall_app. split; [done|].
    repeat constructor. apply isPage_Page. }
  destruct (decide (action.type a = types.ATTACH_TAB)) as [Hty|_].
  { eexists. split; [done|]. split.
    - split; [done|]. unfold inRange, size. simpl. lia.
    - repeat constructor. apply isPage_Page. }
  destruct (decide (action.type a = types.CLOSE_TAB)) as [Hty|_].
  { eexists. split; [done|]. split; [by apply closeTab_invariant|].
    unfold closeTab. case_decide; [apply GoodState_initialState|]. simpl.
    unfold List_delete. case_match; [by apply Forall_delete|done]. }
  destruct (decide (action.type a = types.SET_LOCATION)) as [Hty|_].
  { destruct Hinv as [_ Hcur].
    destruct (GoodState_lookup _ _ Hgood Hcur) as (r & Hlook & Hr).
    unfold setLocation. rewrite (setIn_pages_record _ _ r) by done.
    rewrite Record_set_declared
      by (rewrite Hr; unfold Page_keys, Page_defaults; simpl; set_solver).
    simpl. eexists. split; [done|].
    apply GoodState_insert; [done|]. by rewrite entries_replace_keys. }
  destruct (decide (action.type a = types.SET_PAGE_DETAILS)) as [Hty|_].
  { destruct Hwf as [Hindex Hkeys]. unfold setPageDetails.
    apply setPageDetails_loop_good; [done| |done].
    case_decide; [by destruct Hinv|]. by destruct Hindex. }
  destruct (decide (action.type a = types.SET_CURRENT_TAB)) as [Hty|_].
  { eexists. split; [done|]. split; [|done]. by destruct Hinv. }
  destruct (decide (action.type a = types.SET_PAGE_ORDER)) as [Hty|_].
  { eexists. split; [done|]. split; [|done]. by destruct Hinv. }
  eauto.
Qed.

(** X1: A run of well-formed actions from a good state never raises and ends in
    a good state: the order is a permutation of the live indices, the
    selection is live and every slot is a [Page]. *)
Theorem wellFormed_run_keeps_GoodState (state : State)
    (actions : list action.t) :
  GoodState state → WellFormedRun state actions →
  ∃ state', dispatchAll state actions = Ok state' ∧ GoodState state'.
Proof.
  intros Hgood Hrun. induction Hrun as [state|state a rest Hwf _ IH]; simpl.
  - eauto.
  - destruct (basic_keeps_GoodState state a Hgood Hwf)
      as (state1 & Hstep & Hgood1).
    rewrite Hstep. simpl. by apply IH.
Qed.

Lemma lastWrite_cons key value rest before k :
  lastWrite ((key, value) :: rest) before k
  = lastWrite rest (if decide (key = k) then Some value else before) k.
Proof.
  unfold lastWrite. rewrite reverse_cons, entries_get_app. simpl.
  destruct (entries_get (reverse rest) k); [done|]. by case_decide.
Qed.

Lemma applyDetails_lastWrite details : ∀ r r',
  applyDetails r details = Ok r' →
  ∀ k, entries_get r' k = lastWrite details (entries_get r k) k.
Proof.
  induction details as [|[key value] rest IH]; intros r r' Happly k.
  - simpl in Happly. by injection Happly as ->.
  - simpl in Happly. rewrite lastWrite_cons.
    unfold Record_set, entries_has in Happly.
    case_bool_decide as Hkey; [|done]. simpl in Happly.
    rewrite (IH _ _ Happly k). f_equal. case_decide as Hk.
    + subst k. by apply entries_get_replace_eq.
    + by apply entries_get_replace_ne.
Qed.

(** X9: SetLocation on a good state writes [userTyped] of the selected page and
    nothing else: the field reads back as the value given, every other
    field of that page and every other slot are as before. *)
Theorem setLocation_writes_userTyped (state : State) (value : JsVal) :
  GoodState state →
  ∃ r r',
    pages state !! Z.to_nat (currentPageIndex state) = Some (VRecord r)
    ∧ basic state (SetLocation value)
      = Ok {| pages := <[Z.to_nat (currentPageIndex state) := VRecord r']>
                         (pages state);
              pageOrder := pageOrder state;
              currentPageIndex := currentPageIndex state |}
    ∧ entries_get r' "userTyped" = Some value
    ∧ ∀ k, k ≠ "userTyped" → entries_get r' k = entries_get r k.
Proof.
  intros Hgood. pose proof Hgood as [[_ Hcur] _].
  destruct (GoodState_lookup _ _ Hgood Hcur) as (r & Hlook & Hr).
  assert ("userTyped" ∈ r.*1) as Hkey
    by (rewrite Hr; unfold Page_keys, Page_defaults; simpl; set_solver).
  exists r, (entries_replace r "userTyped" value).
  split; [done|]. split; [|split].
  - rewrite basic_SET_LOCATION by done. unfold setLocation.
    rewrite (setIn_pages_record _ _ r) by done.
    by rewrite Record_set_declared.
  - by apply entries_get_replace_eq.
  - intros k Hk. by apply entries_get_replace_ne.
Qed.

(** X10: SetPageDetails with an index in range, on a good state and with declared
    keys: only that slot changes, and each field of the page ends up with
    the last value [details] gives for it, or keeps its value when
    [details] does not name it. *)
Theorem setPageDetails_last_write_wins (state : State) (pageIndex : Z)
    (details : list (string * JsVal)) :
  GoodState state → inRange state pageIndex →
  Forall (λ kv, kv.1 ∈ Page_keys) details →
  ∃ r r',
    pages state !! Z.to_nat pageIndex = Some (VRecord r)
    ∧ basic state (SetPageDetails pageIndex details)
      = Ok {| pages := <[Z.to_nat pageIndex := VRecord r']> (pages state);
              pageOrder := pageOrder state;
              currentPageIndex := currentPageIndex state |}
    ∧ ∀ k, entries_get r' k = lastWrite details (entries_get r k) k.
Proof.
  intros Hgood Hi Hkeys.
  destruct (GoodState_lookup _ _ Hgood Hi) as (r & Hlook & Hr).
  destruct (applyDetails_declared details r) as (r' & Happly & _);
    [by rewrite Hr|].
  exists r, r'. split; [done|]. split.
  - rewrite basic_SET_PAGE_DETAILS by done. unfold setPageDetails.
    cbn [action.pageIndex action.details SetPageDetails].
    rewrite decide_False by (unfold inRange in Hi; lia).
    rewrite (setPageDetails_loop_record details state pageIndex r Hi Hlook).
    by rewrite Happly.
  - by apply applyDetails_lastWrite.
Qed.

(** The loop of [setPageDetails] on a live slot that holds a Map. *)
Lemma setPageDetails_loop_map details : ∀ state index m,
  inRange state index →
  pages state !! Z.to_nat index = Some (VMap m) →
  ∃ m',
    setPageDetails_loop state index details
    = Ok {| pages := <[Z.to_nat index := VMap m']> (pages state);
            pageOrder := pageOrder state;
            currentPageIndex := currentPageIndex state |}
    ∧ ∀ k, entries_get m' k = lastWrite details (entries_get m k) k.
Proof.
  induction details as [|[key value] rest IH]; intros state index m Hi Hlook.
  - exists m. simpl. rewrite list_insert_id by done. by destruct state.
  - simpl. unfold setIn_pages. unfold inRange, size in Hi.
    rewrite List_get_in_range, Hlook by lia. simpl.
    rewrite List_set_in_range by lia.
    destruct (IH {| pages := <[Z.to_nat index := VMap (Map_set m key value)]>
                               (pages state);
                    pageOrder := pageOrder state;
                    currentPageIndex := currentPageIndex state |}
                 index (Map_set m key value)) as (m' & Hloop & Hm').
    + unfold inRange, size. simpl. by rewrite length_insert.
    + simpl. apply list_lookup_insert_eq. lia.
    + exists m'. rewrite Hloop. simpl. rewrite list_insert_insert_eq.
      split; [done|]. intros k. rewrite Hm', lastWrite_cons.
      by rewrite entries_get_Map_set.
Qed.

(** X11: SetPageDetails with an index past the last page and at least one entry,
    on any state: the page list grows up to that index, with holes after
    the old pages and a Map of the details in the new last slot; the order
    and the selection are not touched. *)
Theorem setPageDetails_past_the_end (state : State) (pageIndex : Z)
    (key : string) (value : JsVal) (rest : list (string * JsVal)) :
  size state ≤ pageIndex →
  ∃ m,
    basic state (SetPageDetails pageIndex ((key, value) :: rest))
    = Ok {| pages :=
              pages state
              ++ replicate (Z.to_nat pageIndex - length (pages state)) VUndefined
              ++ [VMap m];
            pageOrder := pageOrder state;
            currentPageIndex := currentPageIndex state |}
    ∧ ∀ k, entries_get m k = lastWrite ((key, value) :: rest) None k.
Proof.
  unfold size. intros Hi.
  rewrite basic_SET_PAGE_DETAILS by done. unfold setPageDetails.
  cbn [action.pageIndex action.details SetPageDetails].
  rewrite decide_False by lia. simpl. unfold setIn_pages.
  rewrite List_get_out_of_range by lia. simpl.
  rewrite List_set_past by lia.
  set (holes := replicate (Z.to_nat pageIndex - length (pages state)) VUndefined).
  assert (Z.to_nat pageIndex = length (pages state ++ holes) + 0)%nat as Hindex
    by (subst holes; rewrite length_app, length_replicate; lia).
  destruct (setPageDetails_loop_map rest
              {| pages := pages state ++ holes ++ [VMap [(key, value)]];
                 pageOrder := pageOrder state;
                 currentPageIndex := currentPageIndex state |}
              pageIndex [(key, value)]) as (m & Hloop & Hm).
  - unfold inRange, size. simpl. rewrite !length_app. simpl.
    subst holes. rewrite length_replicate. lia.
  - simpl. rewrite Hindex, app_assoc. by rewrite lookup_app_r, Nat.add_0_r, Nat.sub_diag by lia.
  - exists m. rewrite Hloop. simpl. split.
    + rewrite Hindex at 1. rewrite (app_assoc (pages state)), insert_app_r.
      simpl. by rewrite <- app_assoc.
    + intros k. rewrite Hm, lastWrite_cons. simpl. by case_decide.
Qed.

(** X7: DuplicateTab with an index outside the page list: a page is appended
    and selected as usual, and its [location] is [undefined], not the
    default of the field. *)
Theorem duplicateTab_out_of_range (state : State) (pageIndex : Z) :
  size state ≤ pageIndex ∨ pageIndex < - size state →
  basic state (DuplicateTab pageIndex)
  = Ok {| pages := pages state ++ [Page [("location", VUndefined)]];
          pageOrder := pageOrder state ++ [size state];
          currentPageIndex := size state |}
  ∧ locationOf (Page [("location", VUndefined)]) = VUndefined.
Proof.
  unfold size. intros Hi. split; [|done].
  unfold basic. simpl. unfold duplicateTab.
  by rewrite List_get_out_of_range by lia.
Qed.

(** X8: AttachTab forgets the state it is given: the result is a good one-page
    state whose page has, for each declared key, the value the page data
    gives for it or else the default; other keys of the data are dropped. *)
Theorem attachTab_fresh_state (state : State) (page : list (string * JsVal)) :
  ∃ p,
    basic state (AttachTab page)
    = Ok {| pages := [VRecord p]; pageOrder := [0]; currentPageIndex := 0 |}
    ∧ GoodState {| pages := [VRecord p]; pageOrder := [0]; currentPageIndex := 0 |}
    ∧ p.*1 = Page_keys
    ∧ ∀ k, entries_get p k
           = (λ d, default d (entries_get page k)) <$> entries_get Page_defaults k.
Proof.
  exists (Record_new Page_defaults page). split; [done|]. split; [|split].
  - split.
    + split; [done|]. unfold inRange, size. simpl. lia.
    + repeat constructor. apply (isPage_Page page).
  - apply Record_new_keys.
  - intros k. apply entries_get_Record_new.
Qed.

(** X2: CreateTab appends one page and leaves the others in place; the new page
    is the selected one and the last in display order, and its location is
    the one given, or the home page when none is given. *)
Theorem createTab_selects_new_page (state : State) (location : JsVal) :
  ∃ state' newPage,
    basic state (CreateTab location) = Ok state'
    ∧ pages state' = pages state ++ [newPage]
    ∧ pages state' !! Z.to_nat (currentPageIndex state') = Some newPage
    ∧ last (pageOrder state') = Some (currentPageIndex state')
    ∧ locationOf newPage
      = match location with VUndefined => VStr HOME_PAGE | _ => location end.
Proof.
  eexists _, _. split; [by rewrite basic_CREATE_TAB|].
  cbn [action.location CreateTab]. unfold createTab, List_push, size. simpl.
  split; [done|]. split; [|split].
  - rewrite Nat2Z.id. by rewrite lookup_app_r, Nat.sub_diag by lia.
  - apply last_snoc.
  - done.
Qed.

(** C8, amended: SetPageDetails with pageIndex -1, on a state whose
    [currentPageIndex] addresses a live page record and with [details]
    whose keys are all fields of that record, sets the entries of
    [details], in order, on that page and writes it back at
    [currentPageIndex]: each field ends with the last value [details] gives
    for it or keeps its value; every other page slot, the number of pages,
    [pageOrder] and [currentPageIndex] are those of the input state. *)
Theorem setPageDetails_current_page_only (state : State)
    (details : list (string * JsVal)) (r : list (string * JsVal)) :
  0 ≤ currentPageIndex state < Z.of_nat (length (pages state)) →
  pages state !! Z.to_nat (currentPageIndex state) = Some (VRecord r) →
  Forall (λ kv, kv.1 ∈ r.*1) details →
  ∃ r' state',
    applyDetails r details = Ok r'
    ∧ basic state (SetPageDetails (-1) details) = Ok state'
    ∧ pages state' !! Z.to_nat (currentPageIndex state) = Some (VRecord r')
    ∧ (∀ k, entries_get r' k = lastWrite details (entries_get r k) k)
    ∧ (∀ j, j ≠ Z.to_nat (currentPageIndex state) →
            pages state' !! j = pages state !! j)
    ∧ length (pages state') = length (pages state)
    ∧ pageOrder state' = pageOrder state
    ∧ currentPageIndex state' = currentPageIndex state.
Proof.
  intros Hcur Hlook Hkeys.
  destruct (applyDetails_declared details r Hkeys) as (r' & Happly & _).
  exists r'. eexists. split; [done|]. split.
  - rewrite basic_SET_PAGE_DETAILS by done.
    unfold setPageDetails. cbn [action.pageIndex action.details SetPageDetails].
    rewrite decide_True by done.
    rewrite (setPageDetails_loop_record details state _ r) by done.
    by rewrite Happly.
  - simpl. split; [apply list_lookup_insert_eq; lia|].
    split; [by apply applyDetails_lastWrite|].
    split; [intros j Hj; by apply list_lookup_insert_ne|].
    by rewrite length_insert.
Qed.

End MainReducersMore.

(** ** The diff engine: when it speaks, to whom, and when it stays silent *)
Section BrowserMore.
Import Browser.
Variable fromId : Z → bool.

Lemma nil_iff_no_elem {A} (l : list A) : l = [] ↔ ∀ x, x ∉ l.
Proof.
  split; [intros -> x; apply not_elem_of_nil|apply elem_of_nil_inv].
Qed.

(** The part of a run that concerns the window set, on its own. *)
Lemma windowEffects_nil (previous current : gset Z) :
  (fmap ShowWhenLoaded
     (filter (λ id, (id ∉ previous) ∧ fromId id = true) (elements current))
   ++ fmap CloseWhenLoaded
     (filter (λ id, (id ∉ current) ∧ fromId id = true) (elements previous))
   = [])
  ↔ ∀ id, fromId id = true → (id ∈ current) ↔ (id ∈ previous).
Proof.
  rewrite app_nil. split.
  - intros [Hshow%fmap_nil_inv Hclose%fmap_nil_inv] id Hlive.
    rewrite nil_iff_no_elem in Hshow. rewrite nil_iff_no_elem in Hclose.
    specialize (Hshow id). specialize (Hclose id).
    rewrite list_elem_of_filter, elem_of_elements in Hshow, Hclose.
    destruct (decide (id ∈ current)), (decide (id ∈ previous)); tauto.
  - intros Hsame. split.
    + replace (filter _ (elements current)) with (@nil Z); [done|].
      symmetry. apply nil_iff_no_elem. intros id.
      rewrite list_elem_of_filter, elem_of_elements.
      intros [[Hnot Hlive] Hin]. apply Hnot. by apply Hsame.
    + replace (filter _ (elements previous)) with (@nil Z); [done|].
      symmetry. apply nil_iff_no_elem. intros id.
      rewrite list_elem_of_filter, elem_of_elements.
      intros [[Hnot Hlive] Hin]. apply Hnot. by apply Hsame.
Qed.

(** X12: A run after a known previous state has no effect at all exactly when
    the recent bookmarks, the bookmarks and the locations are unchanged and
    no window that [fromId] finds joined or left the window set. *)
Theorem sendDiffsToWindows_silent_iff (previous current : ProfileState) :
  (sendDiffsToWindows fromId (Some previous) current).2 = []
  ↔ recentBookmarks current = recentBookmarks previous
    ∧ bookmarks current = bookmarks previous
    ∧ locations current = locations previous
    ∧ ∀ id, fromId id = true →
            (id ∈ browserWindows current) ↔ (id ∈ browserWindows previous).
Proof.
  unfold sendDiffsToWindows, sendToAllWindows, Immutable_is. simpl.
  rewrite !app_nil.
  assert (∀ (P : Prop) `{Decision P} (e : Effect),
            (if negb (bool_decide P) then [e] else []) = [] ↔ P) as Hone.
  { intros P ? e. case_bool_decide; simpl; [done|]. split; [done|tauto]. }
  rewrite !Hone.
  case_bool_decide as Hwin; simpl.
  - rewrite Hwin. tauto.
  - rewrite windowEffects_nil. tauto.
Qed.

(** X13: Running the subscriber again when the store has not changed since the
    last run does nothing, whatever that last run started from. *)
Theorem sendDiffsToWindows_rerun_silent (currentState : option ProfileState)
    (store : ProfileState) :
  sendDiffsToWindows fromId (sendDiffsToWindows fromId currentState store).1 store
  = (Some store, []).
Proof.
  simpl. unfold sendDiffsToWindows, Immutable_is.
  by rewrite !bool_decide_eq_true_2 by done.
Qed.

(** X14: Which windows a run shows and closes.  After a known previous state, a
    window is shown exactly when it is new in the window set and [fromId]
    finds it, and closed exactly when it left the set and [fromId] finds
    it.  The first run, which has no previous state, shows no window, even
    when the store holds some. *)
Theorem sendDiffsToWindows_window_schedule (previous current : ProfileState)
    (id : Z) :
  (ShowWhenLoaded id ∈ (sendDiffsToWindows fromId (Some previous) current).2
   ↔ (id ∈ browserWindows current) ∧ (id ∉ browserWindows previous)
     ∧ fromId id = true)
  ∧ (CloseWhenLoaded id ∈ (sendDiffsToWindows fromId (Some previous) current).2
     ↔ (id ∈ browserWindows previous) ∧ (id ∉ browserWindows current)
       ∧ fromId id = true)
  ∧ ShowWhenLoaded id ∉ (sendDiffsToWindows fromId None current).2.
Proof.
  unfold sendDiffsToWindows, sendToAllWindows, Immutable_is. simpl.
  rewrite !elem_of_app.
  assert (∀ (c : bool) w, (∀ j, w ≠ ShowWhenLoaded j) →
            ¬ (ShowWhenLoaded id ∈ (if c then [w] else []))) as Hshow.
  { intros c w Hw. destruct c; [|apply not_elem_of_nil].
    rewrite list_elem_of_singleton. intros Heq. by apply (Hw id). }
  assert (∀ (c : bool) w, (∀ j, w ≠ CloseWhenLoaded j) →
            ¬ (CloseWhenLoaded id ∈ (if c then [w] else []))) as Hclose.
  { intros c w Hw. destruct c; [|apply not_elem_of_nil].
    rewrite list_elem_of_singleton. intros Heq. by apply (Hw id). }
  split; [|split].
  - split.
    + intros [Hin|[Hin|[Hin|Hin]]];
        [|by apply Hshow in Hin..].
      case_bool_decide; simpl in Hin; [by apply elem_of_nil in Hin|].
      apply elem_of_app in Hin as [Hin|Hin];
        apply list_elem_of_fmap in Hin as (j & Heq & Hj); [|done].
      injection Heq as ->.
      apply list_elem_of_filter in Hj as [[Hnot Hlive] Hj].
      by apply elem_of_elements in Hj.
    + intros (Hin & Hnot & Hlive). left.
      rewrite bool_decide_eq_false_2 by (intros Heq; by rewrite Heq in Hin).
      simpl. apply elem_of_app. left. apply list_elem_of_fmap.
      exists id. split; [done|]. apply list_elem_of_filter.
      split; [done|]. by apply elem_of_elements.
  - split.
    + intros [Hin|[Hin|[Hin|Hin]]];
        [|by apply Hclose in Hin..].
      case_bool_decide; simpl in Hin; [by apply elem_of_nil in Hin|].
      apply elem_of_app in Hin as [Hin|Hin];
        apply list_elem_of_fmap in Hin as (j & Heq & Hj); [done|].
      injection Heq as ->.
      apply list_elem_of_filter in Hj as [[Hnot Hlive] Hj].
      by apply elem_of_elements in Hj.
    + intros (Hin & Hnot & Hlive). left.
      rewrite bool_decide_eq_false_2 by (intros Heq; by rewrite <- Heq in Hin).
      simpl. apply elem_of_app. right. apply list_elem_of_fmap.
      exists id. split; [done|]. apply list_elem_of_filter.
      split; [done|]. by apply elem_of_elements.
  - rewrite !elem_of_cons, elem_of_nil. by intros [?|[?|[?|?]]].
Qed.

(** X15: Every message a run sends is a [profile-diff]; it carries a listing
    of exactly the bookmarks of the current state, each once, or a listing
    of exactly its location entries, each once; and it goes once to each
    window of the current window set that [fromId] finds, and to no other.
    Nothing is said about the order of a listing. *)
Theorem sendDiffsToWindows_receivers (currentState : option ProfileState)
    (store : ProfileState) (event : string) (args : profileDiffs.t)
    (receivers : list Z) :
  SendToAllWindows event args receivers
    ∈ (sendDiffsToWindows fromId currentState store).2 →
  event = "profile-diff"
  ∧ ((∃ payload,
        args = profileDiffs.bookmarks payload
        ∧ NoDup payload
        ∧ ∀ url, url ∈ payload ↔ url ∈ bookmarks store)
     ∨ (∃ payload,
          args = profileDiffs.completions payload
          ∧ NoDup payload
          ∧ ∀ location completion,
              (location, completion) ∈ payload
              ↔ locations store !! location = Some completion))
  ∧ NoDup receivers
  ∧ ∀ id, id ∈ receivers ↔ (id ∈ browserWindows store) ∧ fromId id = true.
Proof.
  unfold sendDiffsToWindows, sendToAllWindows. simpl.
  rewrite !elem_of_app.
  assert (NoDup (filter (λ id, fromId id = true) (elements (browserWindows store)))
          ∧ ∀ id, id ∈ filter (λ id, fromId id = true)
                          (elements (browserWindows store))
                  ↔ (id ∈ browserWindows store) ∧ fromId id = true) as Hrecv.
  { split; [apply NoDup_filter, NoDup_elements|].
    intros id. rewrite list_elem_of_filter, elem_of_elements. tauto. }
  intros [Hin|[Hin|[Hin|Hin]]].
  - exfalso. destruct currentState as [previous|];
      [|by apply elem_of_nil in Hin].
    case_match; [|by apply elem_of_nil in Hin].
    apply elem_of_app in Hin as [Hin|Hin];
      by apply list_elem_of_fmap in Hin as (j & Heq & _).
  - exfalso. case_match; [|by apply elem_of_nil in Hin].
    by apply list_elem_of_singleton in Hin.
  - case_match; [|by apply elem_of_nil in Hin].
    apply list_elem_of_singleton in Hin. injection Hin as -> -> ->.
    split; [done|]. split; [|done]. left.
    exists (elements (bookmarks store)). split; [done|].
    split; [apply NoDup_elements|]. intros url. apply elem_of_elements.
  - case_match; [|by apply elem_of_nil in Hin].
    apply list_elem_of_singleton in Hin. injection Hin as -> -> ->.
    split; [done|]. split; [|done]. right.
    exists (map_to_list (locations store)). split; [done|].
    split; [apply NoDup_map_to_list|]. intros location completion.
    apply elem_of_map_to_list.
Qed.

End BrowserMore.

(** ** [fileUrl] *)
Section FileUrlFacts.
Import BrowserUrl.
Variable resolve : string → string.

(** After the drive-letter fix the path always begins with a slash. *)
Lemma pathName_begins_with_slash (pathName : string) :
  ∃ tail,
    match pathName with
    | String "/" _ => pathName
    | _ => String "/" pathName
    end = String "/" tail.
Proof.
  destruct pathName as [|c rest]; [by eexists|].
  destruct c as [[] [] [] [] [] [] [] []]; by eexists.
Qed.

Lemma replaceBackslashes_plain (s : string) :
  Forall (λ c, unescapedInURI c = true) (String.list_ascii_of_string s) →
  replaceBackslashes s = s.
Proof.
  induction s as [|c rest IH]; simpl; [done|].
  intros [Hc Hrest]%Forall_cons. rewrite IH by done.
  case_decide as Hslash; [|done]. subst c. by vm_compute in Hc.
Qed.

Lemma encodeURI_plain (s : string) :
  Forall (λ c, unescapedInURI c = true) (String.list_ascii_of_string s) →
  encodeURI s = s.
Proof.
  induction s as [|c rest IH]; simpl; [done|].
  intros [Hc Hrest]%Forall_cons. by rewrite Hc, IH.
Qed.

(** X16: When the path resolves to a well-formed string (one without an
    unpaired surrogate, on which [encodeURI] would raise), with a drive
    letter or without, with backslashes or slashes, the URL begins with
    [file:///]. *)
Theorem fileUrl_begins_with_file_scheme (str : string) :
  wellFormedUTF8 (resolve str) = true →
  ∃ rest, fileUrl resolve str = String.append "file:///" rest.
Proof.
  intros _. unfold fileUrl.
  destruct (pathName_begins_with_slash (replaceBackslashes (resolve str)))
    as [tail ->].
  by exists (encodeURI tail).
Qed.

(** X17: A path that resolves to an absolute path made only of characters that
    need no escaping is its own URL path: the URL is [file://] followed by
    the path, unchanged. *)
Theorem fileUrl_plain_path (str tail : string) :
  resolve str = String "/" tail →
  Forall (λ c, unescapedInURI c = true) (String.list_ascii_of_string tail) →
  fileUrl resolve str = String.append "file://" (String "/" tail).
Proof.
  intros Hresolve Hplain. unfold fileUrl. rewrite Hresolve.
  rewrite (replaceBackslashes_plain (String "/" tail))
    by (by apply Forall_cons).
  change (encodeURI (String.append "file://" (String "/" tail)))
    with (String.append "file:///" (encodeURI tail)).
  by rewrite encodeURI_plain.
Qed.

End FileUrlFacts.

(** ** The further properties at concrete inputs *)
Section MoreInstances.
#[local] Existing Instance examplePageModel.
Import Browser BrowserUrl.

Lemma twoPages_invariant : TabInvariant twoPages.
Proof. split; [vm_compute; reflexivity|]. unfold inRange. vm_compute. by split. Defined.

Lemma twoPages_good : GoodState twoPages.
Proof. split; [exact twoPages_invariant|]. repeat constructor. Defined.

Lemma closeTab_keeps_a_page_witness :
  (1 ≤ length (pages twoPages))%nat
  ∧ (1 ≤ length (pages (closeTab twoPages 7)) ≤ length (pages twoPages))%nat.
Proof.
  assert (1 ≤ length (pages twoPages))%nat as Hlen by (simpl; lia).
  split; [exact Hlen|].
  exact (proj1 (closeTab_keeps_a_page twoPages 7 Hlen)).
Defined.

Lemma closeTab_past_the_end_witness :
  TabInvariant twoPages ∧ size twoPages ≠ 1 ∧ size twoPages ≤ 7
  ∧ closeTab twoPages 7
    = {| pages := pages twoPages; pageOrder := [0]; currentPageIndex := 1 |}.
Proof.
  assert (size twoPages ≠ 1) as Hsize by (vm_compute; discriminate).
  assert (size twoPages ≤ 7) as Hi by (vm_compute; discriminate).
  split; [exact twoPages_invariant|]. split; [exact Hsize|].
  split; [exact Hi|].
  exact (proj1 (closeTab_past_the_end twoPages 7 twoPages_invariant Hsize Hi)).
Defined.

Lemma closeTab_negative_index_witness :
  TabInvariant twoPages ∧ size twoPages ≠ 1 ∧ -1 < 0
  ∧ closeTab twoPages (-1)
    = {| pages := [Page [("location", VStr HOME_PAGE)]];
         pageOrder := [-1];
         currentPageIndex := 0 |}.
Proof.
  assert (size twoPages ≠ 1) as Hsize by (vm_compute; discriminate).
  assert (-1 < 0) as Hi by lia.
  split; [exact twoPages_invariant|]. split; [exact Hsize|].
  split; [exact Hi|].
  exact (proj1 (closeTab_negative_index twoPages (-1) twoPages_invariant Hsize Hi)).
Defined.

Lemma createTab_then_closeTab_witness :
  TabInvariant twoPages
  ∧ dispatchAll twoPages [CreateTab (VStr "http://b.com"); CloseTab 2]
    = Ok {| pages := pages twoPages; pageOrder := [0; 1];
            currentPageIndex := 1 |}.
Proof.
  split; [exact twoPages_invariant|].
  exact (createTab_then_closeTab twoPages (VStr "http://b.com")
           twoPages_invariant).
Defined.

Lemma wellFormed_run_keeps_GoodState_witness :
  let actions :=
    [CreateTab (VStr "http://a.com"); SetPageOrder [1; 0]; SetCurrentTab 0;
     SetPageDetails (-1) [("title", VStr "Home")]; DuplicateTab 9;
     CloseTab 1] in
  GoodState initialState
  ∧ WellFormedRun initialState actions
  ∧ ∃ state', dispatchAll initialState actions = Ok state' ∧ GoodState state'.
Proof.
  intros actions.
  assert (WellFormedRun initialState actions) as Hrun.
  { apply wf_step; [exact I|]. intros s1 H1. vm_compute in H1.
    injection H1 as <-.
    apply wf_step; [vm_compute; apply perm_swap|]. intros s2 H2.
    vm_compute in H2. injection H2 as <-.
    apply wf_step; [vm_compute; by split|]. intros s3 H3.
    vm_compute in H3. injection H3 as <-.
    apply wf_step; [split; [by left|repeat constructor]|]. intros s4 H4.
    vm_compute in H4. injection H4 as <-.
    apply wf_step; [exact I|]. intros s5 H5. vm_compute in H5.
    injection H5 as <-.
    apply wf_step; [vm_compute; by split|]. intros s6 H6.
    apply wf_done. }
  split; [exact GoodState_initialState|]. split; [exact Hrun|].
  exact (wellFormed_run_keeps_GoodState initialState actions
           GoodState_initialState Hrun).
Defined.

Lemma setLocation_writes_userTyped_witness :
  GoodState twoPages
  ∧ ∃ r r',
      pages twoPages !! Z.to_nat (currentPageIndex twoPages) = Some (VRecord r)
      ∧ basic twoPages (SetLocation (VStr "moz"))
        = Ok {| pages := <[Z.to_nat (currentPageIndex twoPages) := VRecord r']>
                           (pages twoPages);
                pageOrder := pageOrder twoPages;
                currentPageIndex := currentPageIndex twoPages |}
      ∧ entries_get r' "userTyped" = Some (VStr "moz")
      ∧ ∀ k, k ≠ "userTyped" → entries_get r' k = entries_get r k.
Proof.
  split; [exact twoPages_good|].
  exact (setLocation_writes_userTyped twoPages (VStr "moz") twoPages_good).
Defined.

Lemma setPageDetails_last_write_wins_witness :
  let details :=
    [("title", VStr "a"); ("userTyped", VStr "x"); ("title", VStr "b")] in
  GoodState twoPages ∧ inRange twoPages 0
  ∧ Forall (λ kv, kv.1 ∈ Page_keys) details
  ∧ ∃ r r',
      pages twoPages !! Z.to_nat 0 = Some (VRecord r)
      ∧ basic twoPages (SetPageDetails 0 details)
        = Ok {| pages := <[Z.to_nat 0 := VRecord r']> (pages twoPages);
                pageOrder := pageOrder twoPages;
                currentPageIndex := currentPageIndex twoPages |}
      ∧ ∀ k, entries_get r' k = lastWrite details (entries_get r k) k.
Proof.
  intros details.
  assert (inRange twoPages 0) as Hi by (unfold inRange; vm_compute; by split).
  assert (Forall (λ kv, kv.1 ∈ Page_keys) details) as Hkeys
    by (repeat constructor).
  split; [exact twoPages_good|]. split; [exact Hi|]. split; [exact Hkeys|].
  exact (setPageDetails_last_write_wins twoPages 0 details twoPages_good Hi Hkeys).
Defined.

Lemma setPageDetails_past_the_end_witness :
  size initialState ≤ 3
  ∧ ∃ m,
      basic initialState
        (SetPageDetails 3 [("title", VStr "a"); ("title", VStr "b")])
      = Ok {| pages :=
                pages initialState
                ++ replicate (Z.to_nat 3 - length (pages initialState)) VUndefined
                ++ [VMap m];
              pageOrder := pageOrder initialState;
              currentPageIndex := currentPageIndex initialState |}
      ∧ ∀ k, entries_get m k
             = lastWrite [("title", VStr "a"); ("title", VStr "b")] None k.
Proof.
  assert (size initialState ≤ 3) as Hi by (vm_compute; discriminate).
  split; [exact Hi|].
  exact (setPageDetails_past_the_end initialState 3 "title" (VStr "a")
           [("title", VStr "b")] Hi).
Defined.

Lemma duplicateTab_out_of_range_witness :
  (size initialState ≤ 4 ∨ 4 < - size initialState)
  ∧ basic initialState (DuplicateTab 4)
    = Ok {| pages := pages initialState ++ [Page [("location", VUndefined)]];
            pageOrder := [0; 1];
            currentPageIndex := 1 |}.
Proof.
  assert (size initialState ≤ 4 ∨ 4 < - size initialState) as Hi
    by (left; vm_compute; discriminate).
  split; [exact Hi|].
  exact (proj1 (duplicateTab_out_of_range initialState 4 Hi)).
Defined.

Lemma sendDiffsToWindows_receivers_witness :
  let previous := mkProfileState {[1; 2]} [] ∅ ∅ in
  let store := mkProfileState {[1; 2]} [] {["http://a.com"]} ∅ in
  let fromId := λ id : Z, bool_decide (id = 2) in
  let receivers := filter (λ id, fromId id = true) (elements (browserWindows store)) in
  let args := profileDiffs.bookmarks (elements (Browser.bookmarks store)) in
  SendToAllWindows "profile-diff" args receivers
    ∈ (sendDiffsToWindows fromId (Some previous) store).2
  ∧ NoDup receivers
  ∧ ∀ id, id ∈ receivers ↔ (id ∈ browserWindows store) ∧ fromId id = true.
Proof.
  intros previous store fromId receivers args.
  assert (SendToAllWindows "profile-diff" args receivers
            ∈ (sendDiffsToWindows fromId (Some previous) store).2) as Hin
    by (vm_compute; apply list_elem_of_here).
  split; [exact Hin|].
  exact (proj2 (proj2 (sendDiffsToWindows_receivers fromId (Some previous) store
                         "profile-diff" args receivers Hin))).
Defined.

Lemma fileUrl_plain_path_witness :
  let resolve := λ s : string, String.append "/home/user/" s in
  resolve "browser.html" = String "/" "home/user/browser.html"
  ∧ Forall (λ c, unescapedInURI c = true)
           (String.list_ascii_of_string "home/user/browser.html")
  ∧ fileUrl resolve "browser.html" = "file:///home/user/browser.html".
Proof.
  intros resolve.
  assert (Forall (λ c, unescapedInURI c = true)
                 (String.list_ascii_of_string "home/user/browser.html"))
    as Hplain by (repeat constructor).
  split; [reflexivity|]. split; [exact Hplain|].
  exact (fileUrl_plain_path resolve "browser.html" "home/user/browser.html"
           eq_refl Hplain).
Defined.

Lemma setPageDetails_current_page_only_witness :
  let details :=
    [("userTyped", VStr "moz"); ("title", VStr "Mozilla");
     ("userTyped", VStr "mozilla")] in
  let r :=
    [("location", VStr "http://a.com"); ("userTyped", VNull);
     ("sessionId", VNull); ("title", VStr "New Tab")] in
  0 ≤ currentPageIndex twoPages < Z.of_nat (length (pages twoPages))
  ∧ pages twoPages !! Z.to_nat (currentPageIndex twoPages) = Some (VRecord r)
  ∧ Forall (λ kv, kv.1 ∈ r.*1) details
  ∧ ∃ r' state',
      applyDetails r details = Ok r'
      ∧ basic twoPages (SetPageDetails (-1) details) = Ok state'
      ∧ pages state' !! Z.to_nat (currentPageIndex twoPages) = Some (VRecord r')
      ∧ (∀ k, entries_get r' k = lastWrite details (entries_get r k) k)
      ∧ (∀ j, j ≠ Z.to_nat (currentPageIndex twoPages) →
              pages state' !! j = pages twoPages !! j)
      ∧ length (pages state') = length (pages twoPages)
      ∧ pageOrder state' = pageOrder twoPages
      ∧ currentPageIndex state' = currentPageIndex twoPages.
Proof.
  intros details r.
  assert (0 ≤ currentPageIndex twoPages < Z.of_nat (length (pages twoPages)))
    as Hcur by (vm_compute; by split).
  assert (Forall (λ kv, kv.1 ∈ r.*1) details) as Hkeys
    by (repeat constructor).
  split; [exact Hcur|]. split; [reflexivity|]. split; [exact Hkeys|].
  exact (setPageDetails_current_page_only twoPages details r Hcur eq_refl Hkeys).
Defined.

(** C8 as stated fails.  On the initial state, whose current index is live,
    a key that [Page] does not declare makes the dispatch raise, so there is
    no resulting state.  On a state whose [currentPageIndex] addresses no
    page (here -3, set by SetCurrentTab), the page list grows at the front
    and the home page is no longer in slot 0. *)
Lemma setPageDetails_current_page_counterexample :
  (¬ ∃ state',
       basic initialState
         (SetPageDetails (-1) [("title", VStr "Mozilla"); ("bogus", VNum 1)])
       = Ok state')
  ∧ ∃ state',
      basic (setCurrentTab initialState (-3))
        (SetPageDetails (-1) [("title", VStr "x")]) = Ok state'
      ∧ pages state'
        = [VMap [("title", VStr "x")]; VUndefined;
           Page [("location", VStr HOME_PAGE)]]
      ∧ pages state' !! 0%nat ≠ pages (setCurrentTab initialState (-3)) !! 0%nat.
Proof.
  split.
  - intros [state' Hok]. vm_compute in Hok. discriminate Hok.
  - eexists. split; [reflexivity|]. split; [reflexivity|]. discriminate.
Qed.

Lemma fileUrl_begins_with_file_scheme_witness :
  let resolve := λ s : string, String.append "C:\Users\zoé\" s in
  wellFormedUTF8 (resolve "browser.html") = true
  ∧ (∃ rest, fileUrl resolve "browser.html" = String.append "file:///" rest)
  ∧ fileUrl resolve "browser.html" = "file:///C:/Users/zo%C3%A9/browser.html".
Proof.
  intros resolve.
  assert (wellFormedUTF8 (resolve "browser.html") = true) as Hwf
    by reflexivity.
  split; [exact Hwf|]. split; [|reflexivity].
  exact (fileUrl_begins_with_file_scheme resolve "browser.html" Hwf).
Defined.

End MoreInstances.
